(** * X12 837 claim parser for the Claim Viewer: model and properties

    A shallow embedding of [claim_viewer/priv/python/parser_for_viewer.py].

    Text.  A Python [str] is modelled as a list of characters whose code
    points are below 256, the range of the [latin-1] decoder the reader
    falls back to.  On that range [str.strip], the regular-expression
    classes and [str.isalnum] are written out character by character.

    Numbers.  [int()] and [float()] are not interpreted: a parsed number
    is kept as the text handed to the builtin (see [pynum]).

    Upper case.  [str.upper] takes two characters of the range outside
    it; the tokenizer answers [None] on an identifier that has one of
    them (see [upper]).  Reading the file, the byte-order mark and the
    decoding come before the text and are not modelled.

    Objects.  The dicts the program shares between owners (the address
    dicts buffered by N3/N4 and the provider dicts, one of which is
    copied at the end) live in stores and are named by their index; the
    remaining dicts are never aliased and are held by value. *)

From Stdlib Require Import Ascii String NArith Sorted.
From stdpp Require Import base option list strings gmap.
Import ListNotations.

#[local] Open Scope N_scope.
#[local] Open Scope nat_scope.
#[local] Open Scope list_scope.

(** ** Text *)

Definition str := list ascii.

Definition txt (s : string) : str := list_ascii_of_string s.

Definition code (c : ascii) : N := N_of_ascii c.

Definition in_range (lo hi : N) (c : ascii) : bool :=
  ((lo <=? code c) && (code c <=? hi))%N.

Definition chr_eqb (a b : ascii) : bool := Ascii.eqb a b.

(** The regular-expression class [[A-Za-z0-9]]. *)
Definition is_ascii_alnum (c : ascii) : bool :=
  in_range 48 57 c || in_range 65 90 c || in_range 97 122 c.

(** Whitespace as [str.strip] and the class [\s] see it. *)
Definition isspace (c : ascii) : bool :=
  in_range 9 13 c || in_range 28 32 c || (code c =? 133)%N || (code c =? 160)%N.

(** [str.isalnum] for one character. *)
Definition isalnum (c : ascii) : bool :=
  is_ascii_alnum c
  || (code c =? 170)%N || (code c =? 178)%N || (code c =? 179)%N
  || (code c =? 181)%N || (code c =? 185)%N || (code c =? 186)%N
  || in_range 188 190 c
  || in_range 192 214 c || in_range 216 246 c || in_range 248 255 c.

Fixpoint lstrip (s : str) : str :=
  match s with
  | c :: t => if isspace c then lstrip t else s
  | [] => []
  end.

Definition rstrip (s : str) : str := rev (lstrip (rev s)).

(** [s.strip()] *)
Definition strip (s : str) : str := rstrip (lstrip s).

(** [s.replace(c, '')] *)
Definition remove_chr (c : ascii) (s : str) : str :=
  filter (fun x => x <> c) s.

(** [c in s] *)
Definition contains (c : ascii) (s : str) : bool := existsb (chr_eqb c) s.

Definition push (c : ascii) (l : list str) : list str :=
  match l with
  | p :: ps => (c :: p) :: ps
  | [] => [[c]]
  end.

(** [s.split(sep)] for a one-character separator. *)
Fixpoint split (sep : ascii) (s : str) : list str :=
  match s with
  | [] => [[]]
  | c :: t => if chr_eqb c sep then [] :: split sep t else push c (split sep t)
  end.

(** [s.split(sep, n)]: at most [n] cuts, the rest of the text is the last
    piece. *)
Fixpoint split_max (sep : ascii) (n : nat) (s : str) : list str :=
  match s with
  | [] => [[]]
  | c :: t =>
      match n with
      | 0 => [s]
      | S n' =>
          if chr_eqb c sep then [] :: split_max sep n' t
          else push c (split_max sep n t)
      end
  end.

(** [l[-1]] of a list that is not empty. *)
Definition last_piece (l : list str) : str := List.last l [].

Definition is_empty (s : str) : bool :=
  match s with [] => true | _ => false end.

Definition str_eqb (a b : str) : bool := bool_decide (a = b).

(** Order of two strings as Python compares them: by code point, a proper
    prefix first. *)
Fixpoint str_compare (a b : str) : comparison :=
  match a, b with
  | [], [] => Eq
  | [], _ :: _ => Lt
  | _ :: _, [] => Gt
  | x :: a', y :: b' =>
      match N.compare (code x) (code y) with
      | Eq => str_compare a' b'
      | o => o
      end
  end.

Definition str_lt (a b : str) : Prop := str_compare a b = Lt.

(** ** Value helpers *)

(** [el(elements, index)] *)
Definition el (elements : list str) (index : nat) : str :=
  nth index elements [].

Definition parse_date (date_str : str) : str :=
  if is_empty date_str || negb (length date_str =? 8) then date_str
  else take 4 date_str ++ txt "-" ++ take 2 (drop 4 date_str)
       ++ txt "-" ++ take 2 (drop 6 date_str).

Definition parse_time (time_str : str) : str :=
  if is_empty time_str || (length time_str <? 4) then time_str
  else take 2 time_str ++ txt ":" ++ take 2 (drop 2 time_str).

Definition clean_value (value : str) : str :=
  if is_empty value then []
  else strip (remove_chr "~"%char value).

Definition clean_code (code : str) : str :=
  if is_empty code then []
  else
    let cleaned := clean_value code in
    if contains ":"%char cleaned then last_piece (split ":"%char cleaned)
    else cleaned.

(** A number as the program holds it.  [IntOf s] is [int(s)] and
    [FloatOf s] is [float(s)] where the builtin accepts [s], and the
    default of the caller (zero) where it raises [ValueError]. *)
Inductive pynum :=
  | IntZero
  | FloatZero
  | IntOf (s : str)
  | FloatOf (s : str).

Definition safe_int (value : str) : pynum :=
  if is_empty value then IntZero else IntOf (clean_value value).

Definition safe_float (value : str) : pynum :=
  if is_empty value then FloatZero
  else
    let cleaned := clean_value value in
    if is_empty cleaned then FloatZero else FloatOf cleaned.

(** ** Errors

    The program raises [RuntimeError] with one of four messages.  The
    first three are the format errors of the reader; the fourth is raised
    by the parser when no claim was found and carries the diagnostic. *)

(** The transaction label of the diagnostic: a description from the
    table [tx_names], or [f'transaction type {trans_type}']. *)
Inductive label :=
  | Described (description : string)
  | TransactionType (trans_type : str).

Record diagnostic := mkDiagnostic {
  found_ids : list str;   (* sorted(set(sid for sid, _ in segments)) *)
  tx_label : label;
  diag_ele_sep : ascii;
  diag_seg_term : ascii
}.

Inductive error :=
  | IsaMissingSeparators  (* "ISA segment does not have 16 element separators." *)
  | IsaTruncated          (* "Cannot determine segment terminator from ISA16." *)
  | NoIsaOrSt             (* "Not a valid X12 file: no ISA or ST segment found." *)
  | NoClmFound (d : diagnostic).

Definition is_FormatError (e : error) : bool :=
  match e with
  | IsaMissingSeparators | IsaTruncated | NoIsaOrSt => true
  | NoClmFound _ => false
  end.

Definition is_NoClaimFound (e : error) : bool :=
  match e with
  | NoClmFound _ => true
  | _ => false
  end.

(** ** Delimiter detection (step 2 of [read_x12_segments]) *)

Definition newline : ascii := ascii_of_nat 10.
Definition tab : ascii := ascii_of_nat 9.

(** A letter of the marker under [re.IGNORECASE]. *)
Definition matches_ci (upper lower : ascii) (c : ascii) : bool :=
  chr_eqb c upper || chr_eqb c lower.

(** [ISA(.)] matched at the head of [s]; the dot takes any character but
    a newline.  Returns group 1. *)
Definition isa_here (s : str) : option ascii :=
  match s with
  | i :: s' :: a :: c :: _ =>
      if matches_ci "I" "i" i && matches_ci "S" "s" s' && matches_ci "A" "a" a
         && negb (chr_eqb c newline)
      then Some c else None
  | _ => None
  end.

Fixpoint isa_search_from (pos : nat) (s : str) : option (nat * ascii) :=
  match s with
  | [] => None
  | _ :: t =>
      match isa_here s with
      | Some c => Some (pos, c)
      | None => isa_search_from (S pos) t
      end
  end.

(** [re.search(r'ISA(.)', content, re.IGNORECASE)]: start of the leftmost
    match and its group 1. *)
Definition isa_search (content : str) : option (nat * ascii) :=
  isa_search_from 0 content.

(** The look-behind [(?<![A-Za-z0-9])] given the character before the
    position, if there is one. *)
Definition not_after_alnum (prev : option ascii) : bool :=
  match prev with
  | None => true
  | Some p => negb (is_ascii_alnum p)
  end.

(** [ST([^A-Za-z0-9\s])] matched at the head of [s]. *)
Definition st_here (prev : option ascii) (s : str) : option ascii :=
  match s with
  | s' :: t :: c :: _ =>
      if not_after_alnum prev && chr_eqb s' "S" && chr_eqb t "T"
         && negb (is_ascii_alnum c) && negb (isspace c)
      then Some c else None
  | _ => None
  end.

Fixpoint st_search_from (prev : option ascii) (pos : nat) (s : str)
  : option (nat * ascii) :=
  match s with
  | [] => None
  | c :: t =>
      match st_here prev s with
      | Some e => Some (pos, e)
      | None => st_search_from (Some c) (S pos) t
      end
  end.

(** [re.search(r'(?<![A-Za-z0-9])ST([^A-Za-z0-9\s])', content)] *)
Definition st_search (content : str) : option (nat * ascii) :=
  st_search_from None 0 content.

(** [ch in (' ', '\t', ':', '-')] *)
Definition harmless (ch : ascii) : bool :=
  chr_eqb ch " " || chr_eqb ch tab || chr_eqb ch ":" || chr_eqb ch "-".

(** The scan from the ST marker: the first character that is neither
    alphanumeric, the separator nor harmless, else the default ["~"]. *)
Fixpoint scan_terminator (ele_sep : ascii) (s : str) : ascii :=
  match s with
  | [] => "~"%char
  | ch :: t =>
      if negb (isalnum ch || chr_eqb ch ele_sep || harmless ch) then ch
      else scan_terminator ele_sep t
  end.

Record delimiters := mkDelimiters {
  ele_sep : ascii;
  seg_term : ascii;
  parse_start : nat
}.

Definition detect_delimiters (content : str) : error + delimiters :=
  match isa_search content with
  | Some (start, sep) =>
      let parts := split_max sep 17 (drop start content) in
      if length parts <? 17 then inl IsaMissingSeparators
      else
        let after_isa16 := nth 16 parts [] in
        if length after_isa16 <? 2 then inl IsaTruncated
        else inr (mkDelimiters sep (nth 1 after_isa16 "~"%char) start)
  | None =>
      match st_search content with
      | None => inl NoIsaOrSt
      | Some (start, sep) =>
          inr (mkDelimiters sep (scan_terminator sep (drop start content)) start)
      end
  end.

(** ** Data model of the assembler

    A dict with a fixed set of keys is a record; a key that may be absent
    is an [option] field.  A value that is itself a shared dict is the
    index of that dict in its store. *)

Definition loc := nat.

(** An address dict: [{}] after NM1, [{'street': ..}] after N3, all four
    keys after N4. *)
Record address := mkAddress {
  addr_street : option str;
  addr_city : option str;
  addr_state : option str;
  addr_zip : option str
}.

Definition empty_address : address := mkAddress None None None None.

Record transaction_t := mkTransaction {
  tx_type : option str;
  tx_controlNumber : option str;
  tx_version : option str;
  tx_purpose : option str;
  tx_referenceId : option str;
  tx_date : option str;
  tx_time : option str
}.

Record contact_t := mkContact {
  contact_name : str;
  contact_phone : str;
  contact_extension : str
}.

Record submitter_t := mkSubmitter {
  sub_name : option str;
  sub_id : option str;
  sub_contact : option contact_t
}.

Record receiver_t := mkReceiver {
  rcv_name : option str;
  rcv_id : option str
}.

(** The dict of the billing provider and of the pay-to provider. *)
Record provider := mkProvider {
  prov_name : option str;
  prov_taxId : option str;
  prov_address : option loc
}.

Definition empty_provider : provider := mkProvider None None None.

#[global] Instance provider_inhabited : Inhabited provider :=
  populate empty_provider.

Record subscriber_t := mkSubscriber {
  sbr_firstName : option str;
  sbr_lastName : option str;
  sbr_id : option str;
  sbr_address : option loc;
  sbr_relationship : option str;
  sbr_groupNumber : option str;
  sbr_planType : option str;
  sbr_dob : option str;
  sbr_sex : option str
}.

Record payer_t := mkPayer {
  payer_name : option str;
  payer_payerId : option str
}.

Record indicators_t := mkIndicators {
  assigned : str;
  providerSignature : str;
  releaseInfo : str;
  patientSignature : str;
  relatedCause : str
}.

Record diagnosis_t := mkDiagnosis {
  primary : str;
  secondary : list str
}.

(** The value under ['diagnosisPointer']: [""] until SV1 stores an int. *)
Inductive pointer :=
  | PointerText (s : str)
  | PointerNum (n : pynum).

Record service_line := mkServiceLine {
  lineNumber : pynum;
  codeQualifier : str;
  procedureCode : str;
  charge : pynum;
  unitQualifier : str;
  units : pynum;
  diagnosisPointer : pointer;
  emergencyIndicator : str;
  serviceDate : str;
  line_placeOfService : option str
}.

Record rendering_t := mkRendering {
  rend_firstName : str;
  rend_lastName : str;
  rend_npi : str
}.

Record facility_t := mkFacility {
  fac_name : str;
  fac_taxId : str;
  fac_address : loc
}.

Record claim := mkClaim {
  claim_id : str;
  totalCharge : pynum;
  placeOfService : str;
  serviceType : str;
  indicators : indicators_t;
  onsetDate : str;
  clearinghouseClaimNumber : str;
  diagnosis : diagnosis_t;
  serviceLines : list service_line;
  claim_payer : option payer_t;
  renderingProvider : option rendering_t;
  serviceFacility : option facility_t
}.

(** The values [current_entity] takes besides [None]. *)
Inductive entity :=
  | Submitter
  | Receiver
  | BillingProvider
  | PayToProvider
  | Subscriber
  | Payer
  | RenderingProvider
  | ServiceFacility.

#[global] Instance entity_eq_dec : EqDecision entity.
Proof. solve_decision. Defined.

Definition entity_index (e : entity) : nat :=
  match e with
  | Submitter => 0 | Receiver => 1 | BillingProvider => 2
  | PayToProvider => 3 | Subscriber => 4 | Payer => 5
  | RenderingProvider => 6 | ServiceFacility => 7
  end.

Definition entity_of_index (n : nat) : entity :=
  match n with
  | 0 => Submitter | 1 => Receiver | 2 => BillingProvider
  | 3 => PayToProvider | 4 => Subscriber | 5 => Payer
  | 6 => RenderingProvider | _ => ServiceFacility
  end.

#[global] Instance entity_countable : Countable entity.
Proof.
  refine (inj_countable' entity_index entity_of_index _).
  by intros [].
Defined.

(** The local variables of [parse_x12_for_viewer] and the two stores. *)
Record state := mkState {
  transaction : transaction_t;
  submitter : submitter_t;
  receiver : receiver_t;
  providers : list provider;      (* store of provider dicts *)
  billing_provider : loc;
  pay_to_provider : loc;
  subscriber : subscriber_t;
  payer : payer_t;
  current_claim : option claim;
  claims_data : list claim;
  addresses : list address;       (* store of address dicts *)
  temp_addresses : gmap (option entity) loc;
  current_entity : option entity
}.

Definition initial : state := {|
  transaction := mkTransaction None None None None None None None;
  submitter := mkSubmitter None None None;
  receiver := mkReceiver None None;
  providers := [empty_provider; empty_provider];
  billing_provider := 0;
  pay_to_provider := 1;
  subscriber := mkSubscriber None None None None None None None None None;
  payer := mkPayer None None;
  current_claim := None;
  claims_data := [];
  addresses := [];
  temp_addresses := ∅;
  current_entity := None
|}.

Definition set_transaction (v : transaction_t) (st : state) : state :=
  mkState v (submitter st) (receiver st) (providers st) (billing_provider st)
    (pay_to_provider st) (subscriber st) (payer st) (current_claim st)
    (claims_data st) (addresses st) (temp_addresses st) (current_entity st).

Definition set_submitter (v : submitter_t) (st : state) : state :=
  mkState (transaction st) v (receiver st) (providers st) (billing_provider st)
    (pay_to_provider st) (subscriber st) (payer st) (current_claim st)
    (claims_data st) (addresses st) (temp_addresses st) (current_entity st).

Definition set_receiver (v : receiver_t) (st : state) : state :=
  mkState (transaction st) (submitter st) v (providers st) (billing_provider st)
    (pay_to_provider st) (subscriber st) (payer st) (current_claim st)
    (claims_data st) (addresses st) (temp_addresses st) (current_entity st).

Definition set_providers (v : list provider) (st : state) : state :=
  mkState (transaction st) (submitter st) (receiver st) v (billing_provider st)
    (pay_to_provider st) (subscriber st) (payer st) (current_claim st)
    (claims_data st) (addresses st) (temp_addresses st) (current_entity st).

Definition set_pay_to_provider (v : loc) (st : state) : state :=
  mkState (transaction st) (submitter st) (receiver st) (providers st)
    (billing_provider st) v (subscriber st) (payer st) (current_claim st)
    (claims_data st) (addresses st) (temp_addresses st) (current_entity st).

Definition set_subscriber (v : subscriber_t) (st : state) : state :=
  mkState (transaction st) (submitter st) (receiver st) (providers st)
    (billing_provider st) (pay_to_provider st) v (payer st) (current_claim st)
    (claims_data st) (addresses st) (temp_addresses st) (current_entity st).

Definition set_payer (v : payer_t) (st : state) : state :=
  mkState (transaction st) (submitter st) (receiver st) (providers st)
    (billing_provider st) (pay_to_provider st) (subscriber st) v
    (current_claim st) (claims_data st) (addresses st) (temp_addresses st)
    (current_entity st).

Definition set_current_claim (v : option claim) (st : state) : state :=
  mkState (transaction st) (submitter st) (receiver st) (providers st)
    (billing_provider st) (pay_to_provider st) (subscriber st) (payer st) v
    (claims_data st) (addresses st) (temp_addresses st) (current_entity st).

Definition set_claims_data (v : list claim) (st : state) : state :=
  mkState (transaction st) (submitter st) (receiver st) (providers st)
    (billing_provider st) (pay_to_provider st) (subscriber st) (payer st)
    (current_claim st) v (addresses st) (temp_addresses st) (current_entity st).

Definition set_addresses (v : list address) (st : state) : state :=
  mkState (transaction st) (submitter st) (receiver st) (providers st)
    (billing_provider st) (pay_to_provider st) (subscriber st) (payer st)
    (current_claim st) (claims_data st) v (temp_addresses st) (current_entity st).

Definition set_temp_addresses (v : gmap (option entity) loc) (st : state) : state :=
  mkState (transaction st) (submitter st) (receiver st) (providers st)
    (billing_provider st) (pay_to_provider st) (subscriber st) (payer st)
    (current_claim st) (claims_data st) (addresses st) v (current_entity st).

Definition set_current_entity (v : option entity) (st : state) : state :=
  mkState (transaction st) (submitter st) (receiver st) (providers st)
    (billing_provider st) (pay_to_provider st) (subscriber st) (payer st)
    (current_claim st) (claims_data st) (addresses st) (temp_addresses st) v.

(** A new dict in a store; its index is the old length. *)
Definition alloc {A} (h : list A) (a : A) : list A * loc := (h ++ [a], length h).

(** ** Segments *)

(** One item of the list [read_x12_segments] returns: [(seg_id, elements)]. *)
Definition segment := (str * list str)%type.

Inductive seg_kind :=
  | ISA | ST | BHT | NM1 | N3 | N4 | PER | SBR | DMG | CLM
  | HI | DTP | REF | LX | SV1 | Other.

(** The chain of [seg_id == '...'] tests. *)
Definition classify (seg_id : str) : seg_kind :=
  if str_eqb seg_id (txt "ISA") then ISA
  else if str_eqb seg_id (txt "ST") then ST
  else if str_eqb seg_id (txt "BHT") then BHT
  else if str_eqb seg_id (txt "NM1") then NM1
  else if str_eqb seg_id (txt "N3") then N3
  else if str_eqb seg_id (txt "N4") then N4
  else if str_eqb seg_id (txt "PER") then PER
  else if str_eqb seg_id (txt "SBR") then SBR
  else if str_eqb seg_id (txt "DMG") then DMG
  else if str_eqb seg_id (txt "CLM") then CLM
  else if str_eqb seg_id (txt "HI") then HI
  else if str_eqb seg_id (txt "DTP") then DTP
  else if str_eqb seg_id (txt "REF") then REF
  else if str_eqb seg_id (txt "LX") then LX
  else if str_eqb seg_id (txt "SV1") then SV1
  else Other.

(** The entity an NM1 qualifier names, [None] for a code outside the
    eight the parser knows. *)
Definition entity_of_code (entity_code : str) : option entity :=
  if str_eqb entity_code (txt "41") then Some Submitter
  else if str_eqb entity_code (txt "40") then Some Receiver
  else if str_eqb entity_code (txt "85") then Some BillingProvider
  else if str_eqb entity_code (txt "87") then Some PayToProvider
  else if str_eqb entity_code (txt "IL") then Some Subscriber
  else if str_eqb entity_code (txt "PR") then Some Payer
  else if str_eqb entity_code (txt "82") then Some RenderingProvider
  else if str_eqb entity_code (txt "77") then Some ServiceFacility
  else None.

(** ** Updates of the claim and service-line dicts *)

Definition set_placeOfService (v : str) (c : claim) : claim :=
  mkClaim (claim_id c) (totalCharge c) v (serviceType c) (indicators c)
    (onsetDate c) (clearinghouseClaimNumber c) (diagnosis c) (serviceLines c)
    (claim_payer c) (renderingProvider c) (serviceFacility c).

Definition set_onsetDate (v : str) (c : claim) : claim :=
  mkClaim (claim_id c) (totalCharge c) (placeOfService c) (serviceType c)
    (indicators c) v (clearinghouseClaimNumber c) (diagnosis c) (serviceLines c)
    (claim_payer c) (renderingProvider c) (serviceFacility c).

Definition set_clearinghouseClaimNumber (v : str) (c : claim) : claim :=
  mkClaim (claim_id c) (totalCharge c) (placeOfService c) (serviceType c)
    (indicators c) (onsetDate c) v (diagnosis c) (serviceLines c)
    (claim_payer c) (renderingProvider c) (serviceFacility c).

Definition set_diagnosis (v : diagnosis_t) (c : claim) : claim :=
  mkClaim (claim_id c) (totalCharge c) (placeOfService c) (serviceType c)
    (indicators c) (onsetDate c) (clearinghouseClaimNumber c) v (serviceLines c)
    (claim_payer c) (renderingProvider c) (serviceFacility c).

Definition set_serviceLines (v : list service_line) (c : claim) : claim :=
  mkClaim (claim_id c) (totalCharge c) (placeOfService c) (serviceType c)
    (indicators c) (onsetDate c) (clearinghouseClaimNumber c) (diagnosis c) v
    (claim_payer c) (renderingProvider c) (serviceFacility c).

Definition set_claim_payer (v : option payer_t) (c : claim) : claim :=
  mkClaim (claim_id c) (totalCharge c) (placeOfService c) (serviceType c)
    (indicators c) (onsetDate c) (clearinghouseClaimNumber c) (diagnosis c)
    (serviceLines c) v (renderingProvider c) (serviceFacility c).

Definition set_renderingProvider (v : option rendering_t) (c : claim) : claim :=
  mkClaim (claim_id c) (totalCharge c) (placeOfService c) (serviceType c)
    (indicators c) (onsetDate c) (clearinghouseClaimNumber c) (diagnosis c)
    (serviceLines c) (claim_payer c) v (serviceFacility c).

Definition set_serviceFacility (v : option facility_t) (c : claim) : claim :=
  mkClaim (claim_id c) (totalCharge c) (placeOfService c) (serviceType c)
    (indicators c) (onsetDate c) (clearinghouseClaimNumber c) (diagnosis c)
    (serviceLines c) (claim_payer c) (renderingProvider c) v.

Definition set_serviceDate (v : str) (l : service_line) : service_line :=
  mkServiceLine (lineNumber l) (codeQualifier l) (procedureCode l) (charge l)
    (unitQualifier l) (units l) (diagnosisPointer l) (emergencyIndicator l) v
    (line_placeOfService l).

(** [lines[-1] = f(lines[-1])]: the mutation of the last service line. *)
Fixpoint update_last {A} (f : A -> A) (l : list A) : list A :=
  match l with
  | [] => []
  | [x] => [f x]
  | x :: t => x :: update_last f t
  end.

(** ** The handlers, one per branch of the loop body *)

Section Handlers.
Variable elements : list str.

Definition on_ISA (st : state) : state :=
  let s := submitter st in
  let st := set_submitter
    (mkSubmitter (Some (clean_value (el elements 6))) (sub_id s) (sub_contact s)) st in
  set_receiver
    (mkReceiver (Some (clean_value (el elements 8)))
                (Some (clean_value (el elements 8)))) st.

Definition on_ST (st : state) : state :=
  let t := transaction st in
  set_transaction
    (mkTransaction (Some (clean_value (el elements 1)))
                   (Some (clean_value (el elements 2)))
                   (Some (clean_value (el elements 3)))
                   (tx_purpose t) (tx_referenceId t) (tx_date t) (tx_time t)) st.

Definition on_BHT (st : state) : state :=
  let t := transaction st in
  set_transaction
    (mkTransaction (tx_type t) (tx_controlNumber t) (tx_version t)
                   (Some (clean_value (el elements 1)))
                   (Some (clean_value (el elements 3)))
                   (Some (parse_date (clean_value (el elements 4))))
                   (Some (parse_time (clean_value (el elements 5))))) st.

(** [d['name'] = ..; d['taxId'] = ..; d['address'] = {}] on the provider
    dict at [l]. *)
Definition name_provider (l : loc) (entity_name entity_id : str) (st : state)
  : state :=
  let '(h, a) := alloc (addresses st) empty_address in
  set_providers
    (alter (fun _ => mkProvider (Some entity_name) (Some entity_id) (Some a))
           l (providers st))
    (set_addresses h st).

Definition on_NM1 (st : state) : state :=
  let entity_code := clean_value (el elements 1) in
  let entity_name := clean_value (el elements 3) in
  let entity_fname := clean_value (el elements 4) in
  let entity_id := clean_value (el elements 9) in
  match entity_of_code entity_code with
  | Some Submitter =>
      let s := submitter st in
      set_submitter (mkSubmitter (Some entity_name) (Some entity_id) (sub_contact s))
        (set_current_entity (Some Submitter) st)
  | Some Receiver =>
      set_receiver (mkReceiver (Some entity_name) (Some entity_id))
        (set_current_entity (Some Receiver) st)
  | Some BillingProvider =>
      name_provider (billing_provider st) entity_name entity_id
        (set_current_entity (Some BillingProvider) st)
  | Some PayToProvider =>
      name_provider (pay_to_provider st) entity_name entity_id
        (set_current_entity (Some PayToProvider) st)
  | Some Subscriber =>
      let st := set_current_entity (Some Subscriber) st in
      let s := subscriber st in
      let '(h, a) := alloc (addresses st) empty_address in
      set_subscriber
        (mkSubscriber (Some entity_fname) (Some entity_name) (Some entity_id)
           (Some a) (sbr_relationship s) (sbr_groupNumber s) (sbr_planType s)
           (sbr_dob s) (sbr_sex s))
        (set_addresses h st)
  | Some Payer =>
      let st := set_current_entity (Some Payer) st in
      let payer_entry := mkPayer (Some entity_name) (Some entity_id) in
      match current_claim st with
      | Some c => set_current_claim (Some (set_claim_payer (Some payer_entry) c)) st
      | None => set_payer payer_entry st
      end
  | Some RenderingProvider =>
      let st := set_current_entity (Some RenderingProvider) st in
      match current_claim st with
      | Some c =>
          set_current_claim
            (Some (set_renderingProvider
                     (Some (mkRendering entity_fname entity_name entity_id)) c)) st
      | None => st
      end
  | Some ServiceFacility =>
      let st := set_current_entity (Some ServiceFacility) st in
      match current_claim st with
      | Some c =>
          let '(h, a) := alloc (addresses st) empty_address in
          set_current_claim
            (Some (set_serviceFacility
                     (Some (mkFacility entity_name entity_id a)) c))
            (set_addresses h st)
      | None => st
      end
  | None => st
  end.

(** [temp_addresses[current_entity] = {'street': ..}] *)
Definition on_N3 (st : state) : state :=
  let '(h, a) := alloc (addresses st)
                   (mkAddress (Some (clean_value (el elements 1))) None None None) in
  set_temp_addresses (<[current_entity st := a]> (temp_addresses st))
    (set_addresses h st).

(** [d.update({'city': .., 'state': .., 'zip': ..})] on an address dict. *)
Definition complete_address (d : address) : address :=
  mkAddress (addr_street d)
            (Some (clean_value (el elements 1)))
            (Some (clean_value (el elements 2)))
            (Some (clean_value (el elements 3))).

Definition set_prov_address (addr : loc) (p : provider) : provider :=
  mkProvider (prov_name p) (prov_taxId p) (Some addr).

Definition on_N4 (st : state) : state :=
  match temp_addresses st !! current_entity st with
  | Some addr =>
      let st := set_addresses (alter complete_address addr (addresses st)) st in
      match current_entity st with
      | Some BillingProvider =>
          set_providers
            (alter (set_prov_address addr) (billing_provider st) (providers st)) st
      | Some PayToProvider =>
          set_providers
            (alter (set_prov_address addr) (pay_to_provider st) (providers st)) st
      | Some Subscriber =>
          let s := subscriber st in
          set_subscriber
            (mkSubscriber (sbr_firstName s) (sbr_lastName s) (sbr_id s)
               (Some addr) (sbr_relationship s) (sbr_groupNumber s)
               (sbr_planType s) (sbr_dob s) (sbr_sex s)) st
      | Some ServiceFacility =>
          match current_claim st with
          | Some c =>
              match serviceFacility c with
              | Some f =>
                  set_current_claim
                    (Some (set_serviceFacility
                             (Some (mkFacility (fac_name f) (fac_taxId f) addr)) c))
                    st
              | None => st
              end
          | None => st
          end
      | _ => st
      end
  | None => st
  end.

Definition on_PER (st : state) : state :=
  match current_entity st with
  | Some Submitter =>
      let s := submitter st in
      set_submitter
        (mkSubmitter (sub_name s) (sub_id s)
           (Some (mkContact (clean_value (el elements 2))
                            (clean_value (el elements 4))
                            (clean_value (el elements 6))))) st
  | _ => st
  end.

(** [x or 'self'] *)
Definition or_self (x : str) : str := if is_empty x then txt "self" else x.

Definition on_SBR (st : state) : state :=
  let s := subscriber st in
  set_subscriber
    (mkSubscriber (sbr_firstName s) (sbr_lastName s) (sbr_id s) (sbr_address s)
       (Some (or_self (clean_value (el elements 2))))
       (Some (clean_value (el elements 3)))
       (Some (clean_value (el elements 5)))
       (sbr_dob s) (sbr_sex s)) st.

Definition on_DMG (st : state) : state :=
  match current_entity st with
  | Some Subscriber =>
      let s := subscriber st in
      set_subscriber
        (mkSubscriber (sbr_firstName s) (sbr_lastName s) (sbr_id s) (sbr_address s)
           (sbr_relationship s) (sbr_groupNumber s) (sbr_planType s)
           (Some (parse_date (clean_value (el elements 2))))
           (Some (clean_value (el elements 3)))) st
  | _ => st
  end.

(** The dict a CLM segment opens. *)
Definition new_claim : claim := {|
  claim_id := clean_value (el elements 1);
  totalCharge := safe_float (el elements 2);
  placeOfService := [];
  serviceType := [];
  indicators := {|
    assigned := clean_value (el elements 7);
    providerSignature := clean_value (el elements 6);
    releaseInfo := clean_value (el elements 9);
    patientSignature := clean_value (el elements 8);
    relatedCause := []
  |};
  onsetDate := [];
  clearinghouseClaimNumber := [];
  diagnosis := mkDiagnosis [] [];
  serviceLines := [];
  claim_payer := None;
  renderingProvider := None;
  serviceFacility := None
|}.

Definition on_CLM (st : state) : state :=
  let st :=
    match current_claim st with
    | Some c => set_claims_data (claims_data st ++ [c]) st
    | None => st
    end in
  set_current_claim (Some new_claim) st.

(** The body of [for i in range(1, len(elements))], run on the fields
    from index [i] on. *)
Fixpoint hi_codes (i : nat) (fields : list str) (d : diagnosis_t) : diagnosis_t :=
  match fields with
  | [] => d
  | f :: rest =>
      let d' :=
        if is_empty f then d
        else
          let code := clean_code f in
          if is_empty code then d
          else if i =? 1 then mkDiagnosis code (secondary d)
          else mkDiagnosis (primary d) (secondary d ++ [code]) in
      hi_codes (S i) rest d'
  end.

Definition on_HI (st : state) : state :=
  match current_claim st with
  | Some c =>
      set_current_claim
        (Some (set_diagnosis (hi_codes 1 (drop 1 elements) (diagnosis c)) c)) st
  | None => st
  end.

Definition on_DTP (st : state) : state :=
  let qualifier := clean_value (el elements 1) in
  let date_value := parse_date (clean_value (el elements 3)) in
  match current_claim st with
  | Some c =>
      if str_eqb qualifier (txt "472") && negb (bool_decide (serviceLines c = []))
      then set_current_claim
             (Some (set_serviceLines
                      (update_last (set_serviceDate date_value) (serviceLines c)) c)) st
      else if str_eqb qualifier (txt "431") || str_eqb qualifier (txt "454")
      then set_current_claim (Some (set_onsetDate date_value c)) st
      else st
  | None => st
  end.

Definition on_REF (st : state) : state :=
  match current_claim st with
  | Some c =>
      if str_eqb (clean_value (el elements 1)) (txt "D9")
      then set_current_claim
             (Some (set_clearinghouseClaimNumber (clean_value (el elements 2)) c)) st
      else st
  | None => st
  end.

(** The dict an LX segment appends. *)
Definition new_service_line : service_line := {|
  lineNumber := safe_int (el elements 1);
  codeQualifier := [];
  procedureCode := [];
  charge := IntZero;
  unitQualifier := [];
  units := IntZero;
  diagnosisPointer := PointerText [];
  emergencyIndicator := [];
  serviceDate := [];
  line_placeOfService := None
|}.

Definition on_LX (st : state) : state :=
  match current_claim st with
  | Some c =>
      set_current_claim
        (Some (set_serviceLines (serviceLines c ++ [new_service_line]) c)) st
  | None => st
  end.

(** The writes of the SV1 branch to [svc]. *)
Definition sv1_line (svc : service_line) : service_line :=
  let proc := clean_value (el elements 1) in
  let parts := split ":"%char proc in
  let qualifier :=
    if contains ":"%char proc then el parts 0 else codeQualifier svc in
  let code :=
    if contains ":"%char proc
    then (if 1 <? length parts then el parts 1 else proc)
    else proc in
  let pos := clean_value (el elements 5) in
  let diag := el elements 7 in
  mkServiceLine (lineNumber svc) qualifier code
    (safe_float (el elements 2))
    (clean_value (el elements 3))
    (safe_float (el elements 4))
    (if is_empty diag then diagnosisPointer svc else PointerNum (safe_int diag))
    (emergencyIndicator svc) (serviceDate svc)
    (if is_empty pos then line_placeOfService svc else Some pos).

Definition on_SV1 (st : state) : state :=
  match current_claim st with
  | Some c =>
      if bool_decide (serviceLines c = []) then st
      else
        let pos := clean_value (el elements 5) in
        let c := set_serviceLines (update_last sv1_line (serviceLines c)) c in
        let c :=
          if negb (is_empty pos) && is_empty (placeOfService c)
          then set_placeOfService pos c else c in
        set_current_claim (Some c) st
  | None => st
  end.
End Handlers.

(** One turn of [for seg_id, elements in segments]. *)
Definition step (st : state) (seg : segment) : state :=
  let '(seg_id, elements) := seg in
  match classify seg_id with
  | ISA => on_ISA elements st
  | ST => on_ST elements st
  | BHT => on_BHT elements st
  | NM1 => on_NM1 elements st
  | N3 => on_N3 elements st
  | N4 => on_N4 elements st
  | PER => on_PER elements st
  | SBR => on_SBR elements st
  | DMG => on_DMG elements st
  | CLM => on_CLM elements st
  | HI => on_HI elements st
  | DTP => on_DTP elements st
  | REF => on_REF elements st
  | LX => on_LX elements st
  | SV1 => on_SV1 elements st
  | Other => st
  end.

Definition run (st : state) (segments : list segment) : state :=
  fold_left step segments st.

(** ** End of the loop *)

(** [if current_claim: claims_data.append(current_claim)] *)
Definition commit_open (st : state) : state :=
  match current_claim st with
  | Some c => set_claims_data (claims_data st ++ [c]) st
  | None => st
  end.

(** [not d.get(key)] for a text entry: the key is absent or its value is
    the empty string. *)
Definition falsy (o : option str) : bool :=
  match o with
  | None => true
  | Some s => is_empty s
  end.

(** [d.copy()]: a new dict with the entries of [d]; an entry that refers
    to another dict still refers to the same one. *)
Definition copy_provider (h : list provider) (l : loc) : list provider * loc :=
  alloc h (h !!! l).

(** [if not pay_to_provider.get('name'): pay_to_provider = billing_provider.copy()] *)
Definition default_pay_to (st : state) : state :=
  if falsy (prov_name (providers st !!! pay_to_provider st)) then
    let '(h, l) := copy_provider (providers st) (billing_provider st) in
    set_pay_to_provider l (set_providers h st)
  else st.

Definition finish (st : state) : state := default_pay_to (commit_open st).

(** ** The diagnostic of a file without claims *)

Fixpoint insert_id (x : str) (l : list str) : list str :=
  match l with
  | [] => [x]
  | y :: t =>
      match str_compare x y with
      | Lt => x :: l
      | Eq => l
      | Gt => y :: insert_id x t
      end
  end.

(** [sorted(set(ids))] *)
Definition sorted_set (ids : list str) : list str := fold_right insert_id [] ids.

(** The table [tx_names]; a description is kept as the source writes it. *)
Definition tx_names : list (str * string) :=
  [ (txt "835", "835 Remittance Advice (payment file – not a claim)"%string);
    (txt "270", "270 Eligibility Inquiry"%string);
    (txt "271", "271 Eligibility Response"%string);
    (txt "276", "276 Claim Status Request"%string);
    (txt "277", "277 Claim Status Response"%string);
    (txt "278", "278 Prior Authorization"%string);
    (txt "834", "834 Benefit Enrollment"%string) ].

Fixpoint assoc (k : str) (table : list (str * string)) : option string :=
  match table with
  | [] => None
  | (k', v) :: rest => if str_eqb k k' then Some v else assoc k rest
  end.

(** [transaction.get('type', 'unknown')] *)
Definition trans_type (t : transaction_t) : str :=
  default (txt "unknown") (tx_type t).

(** [tx_names.get(trans_type, f'transaction type {trans_type}')] *)
Definition label_of (trans_type : str) : label :=
  match assoc trans_type tx_names with
  | Some d => Described d
  | None => TransactionType trans_type
  end.

Definition diagnose (segments : list segment) (sep term : ascii) (st : state)
  : diagnostic := {|
    found_ids := sorted_set (map fst segments);
    tx_label := label_of (trans_type (transaction st));
    diag_ele_sep := sep;
    diag_seg_term := term
  |}.

(** ** Packaging *)

Record claim_summary := mkSummary {
  sum_id : str;
  sum_totalCharge : pynum;
  sum_placeOfService : str;
  sum_serviceType : str;
  sum_indicators : indicators_t;
  sum_onsetDate : str;
  sum_clearinghouseClaimNumber : str
}.

(** The ["data"] of the serviceFacility section: the dict of the claim,
    or the billing-provider dict itself. *)
Inductive facility_data :=
  | OwnFacility (f : facility_t)
  | BillingFacility (l : loc).

(** The twelve sections of one claim, in the order of the list. *)
Record sections := mkSections {
  sec_transaction : transaction_t;
  sec_submitter : submitter_t;
  sec_receiver : receiver_t;
  sec_billing_Provider : loc;
  sec_Pay_To_provider : loc;
  sec_subscriber : subscriber_t;
  sec_payer : payer_t;
  sec_claim : claim_summary;
  sec_diagnosis : diagnosis_t;
  sec_renderingProvider : option rendering_t;
  sec_serviceFacility : facility_data;
  sec_service_Lines : list service_line
}.

Definition package (st : state) (claim_data : claim) : sections := {|
  sec_transaction := transaction st;
  sec_submitter := submitter st;
  sec_receiver := receiver st;
  sec_billing_Provider := billing_provider st;
  sec_Pay_To_provider := pay_to_provider st;
  sec_subscriber := subscriber st;
  sec_payer := default (payer st) (claim_payer claim_data);
  sec_claim := mkSummary (claim_id claim_data) (totalCharge claim_data)
                 (placeOfService claim_data) (serviceType claim_data)
                 (indicators claim_data) (onsetDate claim_data)
                 (clearinghouseClaimNumber claim_data);
  sec_diagnosis := diagnosis claim_data;
  sec_renderingProvider := renderingProvider claim_data;
  sec_serviceFacility :=
    match serviceFacility claim_data with
    | Some f => OwnFacility f
    | None => BillingFacility (billing_provider st)
    end;
  sec_service_Lines := serviceLines claim_data
|}.

(** [results[0] if len(results) == 1 else results] *)
Inductive output :=
  | OneClaim (s : sections)
  | ManyClaims (l : list sections).

(** What the caller holds: the sections and the dicts they refer to. *)
Record parsed := mkParsed {
  out : output;
  out_providers : list provider;
  out_addresses : list address
}.

(** The body of [parse_x12_for_viewer], given what [read_x12_segments]
    returned or raised.  No handler raises, so the only errors are the
    reader's and the one for a file without claims. *)
Definition parse_x12_for_viewer (read : error + (list segment * ascii * ascii))
  : error + parsed :=
  match read with
  | inl e => inl e
  | inr (segments, sep, term) =>
      let st := finish (run initial segments) in
      match claims_data st with
      | [] => inl (NoClmFound (diagnose segments sep term st))
      | _ =>
          let results := map (package st) (claims_data st) in
          inr (mkParsed
                 (match results with
                  | [s] => OneClaim s
                  | _ => ManyClaims results
                  end)
                 (providers st) (addresses st))
      end
  end.



(** ** Vocabulary of the statements *)

(** The text [f1 sep f2 sep .. fn sep tail]. *)
Definition fields_text (sep : ascii) (fields : list str) (tail : str) : str :=
  fold_right (fun f acc => f ++ sep :: acc) tail fields.

(** An interchange header followed by the rest of the file: the tag, the
    data elements ISA01 to ISA15, the one-character ISA16 and the segment
    terminator. *)
Definition isa_text (sep : ascii) (tag : str) (fields : list str)
    (isa16 term : ascii) (rest : str) : str :=
  tag ++ sep :: fields_text sep fields (isa16 :: term :: rest).

(** The character before position [length pre] of [pre ++ _], in a text
    that itself comes after [prev]. *)
Definition char_before (prev : option ascii) (pre : str) : option ascii :=
  match last pre with
  | Some c => Some c
  | None => prev
  end.

(** [s], which comes after [prev], has at offset [i] the letters ST
    followed by [sep], which is neither an ASCII letter or digit nor
    whitespace, and the character before the letters, if any, is not an
    ASCII letter or digit. *)
Definition st_marker_after (prev : option ascii) (s : str) (i : nat) (sep : ascii)
  : Prop :=
  exists pre post,
    s = pre ++ "S"%char :: "T"%char :: sep :: post
    /\ length pre = i
    /\ is_ascii_alnum sep = false
    /\ isspace sep = false
    /\ not_after_alnum (char_before prev pre) = true.

(** The same for a whole document. *)
Definition st_marker (content : str) (i : nat) (sep : ascii) : Prop :=
  st_marker_after None content i sep.

(** The marker without the whitespace condition: ST followed by one
    character that is not alphanumeric, not preceded by an alphanumeric
    character. *)
Definition st_marker_any_nonalnum (content : str) (i : nat) (sep : ascii) : Prop :=
  exists pre post,
    content = pre ++ "S"%char :: "T"%char :: sep :: post
    /\ length pre = i
    /\ isalnum sep = false
    /\ match char_before None pre with
       | Some p => isalnum p = false
       | None => True
       end.

(** Documents used as examples. *)
Definition isa_fields : list str :=
  map txt ["00"; "          "; "00"; "          "; "ZZ"; "SENDER         ";
           "ZZ"; "RECEIVER       "; "230415"; "1430"; "^"; "00501";
           "000000001"; "0"; "P"]%string.

Definition isa_document : str :=
  isa_text "*" (txt "ISA") isa_fields ":" "~" (txt "GS*HC*SENDER*RECEIVER~").

Definition truncated_document : str := txt "ISA*00*          *00".

Definition letter_separated_document : str :=
  txt "ISAQ00Q  Q00Q  QZZQSENDERQZZQRECEIVERQ230415Q1430Q^Q00501Q000000001Q0QPQ:~GSQHC~".

Definition is_CLM (seg : segment) : bool :=
  match classify (fst seg) with CLM => true | _ => false end.

Definition is_LX (seg : segment) : bool :=
  match classify (fst seg) with LX => true | _ => false end.

(** The line numbers the LX segments of a stretch of the stream carry, in
    stream order. *)
Definition lx_numbers (segs : list segment) : list pynum :=
  map (fun seg => safe_int (el (snd seg) 1)) (List.filter is_LX segs).

Definition line_numbers (c : claim) : list pynum :=
  map lineNumber (serviceLines c).

(** What a claim keeps through a segment that is not a claim header. *)
Definition claim_extends (seg : segment) (c c' : claim) : Prop :=
  claim_id c' = claim_id c
  /\ line_numbers c' = line_numbers c ++ lx_numbers [seg].

Definition is_ST (seg : segment) : bool :=
  match classify (fst seg) with ST => true | _ => false end.

(** The type the last ST segment of the stream declares, if there is one. *)
Definition last_ST_type (segs : list segment) : option str :=
  (fun seg => clean_value (el (snd seg) 1)) <$> last (List.filter is_ST segs).

(** Streams used as examples. *)
Definition seg (line : string) : segment :=
  let elements := split "*" (txt line) in (el elements 0, elements).

Definition remittance_stream : list segment :=
  map seg ["ST*835*0001"; "BPR*I*100"; "TRN*1*12345"; "BPR*I*200"; "SE*4*0001"]%string.

Definition two_claim_stream : list segment :=
  map seg ["ST*837*0001"; "LX*9"; "NM1*85*2*CLINIC*****XX*123";
           "CLM*A1*100***11:B:1*Y*A*Y*Y"; "LX*1"; "SV1*HC:99213:25*100*UN*1***1";
           "LX*2"; "SV1*HC:99214*50*UN*1";
           "CLM*A2*50"; "LX*1"; "SV1*HC:99215*50*UN*1"; "SE*10*0001"]%string.

(** The dicts the variables [billing_provider] and [pay_to_provider]
    refer to. *)
Definition billing_dict (st : state) : provider :=
  providers st !!! billing_provider st.

Definition pay_to_dict (st : state) : provider :=
  providers st !!! pay_to_provider st.

(** A provider dict with its address entry followed into the store. *)
Definition provider_view (h : list address) (p : provider)
  : option str * option str * option (option address) :=
  (prov_name p, prov_taxId p, (fun l => h !! l) <$> prov_address p).

(** [d[key] = v] on the dict at [l] of a store, for any key and value. *)
Definition mutate {A} (f : A -> A) (l : loc) (h : list A) : list A := alter f l h.

Definition set_city (v : str) (d : address) : address :=
  mkAddress (addr_street d) (Some v) (addr_state d) (addr_zip d).

(** An NM1 segment with the qualifier of entity [e]. *)
Definition names_entity (e : entity) (seg : segment) : bool :=
  match classify (fst seg) with
  | NM1 => bool_decide (entity_of_code (clean_value (el (snd seg) 1)) = Some e)
  | _ => false
  end.

(** An NM1 segment with one of the eight qualifiers. *)
Definition names_any_entity (seg : segment) : bool :=
  match classify (fst seg) with
  | NM1 => bool_decide (is_Some (entity_of_code (clean_value (el (snd seg) 1))))
  | _ => false
  end.

(** The state the loop keeps in step: the two provider variables name
    the two dicts created before it. *)
Definition provider_vars_ok (st : state) : Prop :=
  billing_provider st = 0 /\ pay_to_provider st = 1
  /\ exists b p, providers st = [b; p].

Definition billing_only_stream : list segment :=
  map seg ["NM1*85*2*CLINIC*****XX*123"; "N3*1 MAIN ST"; "N4*TOWN*CA*90001";
           "CLM*A1*100"]%string.

Definition facility_address (c : claim) : option loc :=
  fac_address <$> serviceFacility c.

(** The value under ['address'] in the dict of an entity: the document's
    dict, or for the service facility the dict nested in the open claim.
    The dicts of the submitter, the receiver, the payer and the rendering
    provider are never given that key. *)
Definition party_address (st : state) (e : entity) : option loc :=
  match e with
  | BillingProvider => prov_address (billing_dict st)
  | PayToProvider => prov_address (pay_to_dict st)
  | Subscriber => sbr_address (subscriber st)
  | ServiceFacility => current_claim st ≫= facility_address
  | Submitter | Receiver | Payer | RenderingProvider => None
  end.

(** Everything but the address store and the buffer [temp_addresses]. *)
Definition outside_buffer (st : state) :=
  (transaction st, submitter st, receiver st, providers st,
   billing_provider st, pay_to_provider st, subscriber st, payer st,
   current_claim st, claims_data st, current_entity st).

(** The address dicts some party or claim refers to. *)
Definition address_refs (st : state) : list loc :=
  omap prov_address (providers st)
  ++ option_list (sbr_address (subscriber st))
  ++ option_list (current_claim st ≫= facility_address)
  ++ omap facility_address (claims_data st).

(** Every buffered address is a dict of the store. *)
Definition temp_ok (st : state) : Prop :=
  forall e l, temp_addresses st !! e = Some l -> l < length (addresses st).

Definition submitter_stream : list segment :=
  map seg ["NM1*41*2*CLEARING HOUSE*****46*999"; "N3*1 MAIN ST"]%string.

Definition facility_stream : list segment :=
  map seg ["CLM*A1*100"; "NM1*77*2*WARD*****XX*55"; "N3*2 SIDE ST"]%string.

Definition early_address_stream : list segment :=
  map seg ["ST*837*0001"; "NM1*ZZ*2*NOBODY"; "N3*1 MAIN ST"]%string.

Definition one_line_stream : list segment :=
  map seg ["CLM*A1*100"; "LX*1"]%string.

Definition sv1_elements : list str :=
  split "*" (txt "SV1*HC:99213:25*100*UN*1***1").

(** ** Vocabulary of the further properties *)

(** The claims met so far: the committed ones and the open one. *)
Definition all_claims (st : state) : list claim :=
  claims_data st ++ option_list (current_claim st).

(** The identifiers the CLM segments of a stream carry, in stream order. *)
Definition clm_ids (segs : list segment) : list str :=
  map (fun seg => clean_value (el (snd seg) 1)) (List.filter is_CLM segs).

(** The section lists of a result, in order. *)
Definition section_lists (o : output) : list sections :=
  match o with
  | OneClaim s => [s]
  | ManyClaims l => l
  end.

(** A segment the loop reads only while a claim is open. *)
Definition claim_scoped (seg : segment) : bool :=
  match classify (fst seg) with
  | HI | DTP | REF | LX | SV1 => true
  | _ => false
  end.

(** The entity an NM1 segment names, if it is one of the eight. *)
Definition named_entity (seg : segment) : option entity :=
  match classify (fst seg) with
  | NM1 => entity_of_code (clean_value (el (snd seg) 1))
  | _ => None
  end.

Definition last_named_entity (segs : list segment) : option entity :=
  last (omap named_entity segs).

(** The codes of the fields of an HI segment that have one. *)
Definition codes_of (fields : list str) : list str :=
  List.filter (fun code => negb (is_empty code)) (map clean_code fields).



(** The name the last NM1 segment for a pay-to provider carries. *)
Definition last_pay_to_name (segs : list segment) : option str :=
  (fun seg => clean_value (el (snd seg) 3))
    <$> last (List.filter (names_entity PayToProvider) segs).

Definition stale_buffer_stream : list segment :=
  map seg ["CLM*A1*100"; "NM1*77*2*WARD ONE*****XX*55"; "N3*2 SIDE ST";
           "N4*TOWN*CA*90001"; "CLM*A2*50"; "NM1*77*2*WARD TWO*****XX*66"]%string.

Definition unnamed_pay_to_stream : list segment :=
  map seg ["NM1*85*2*CLINIC*****XX*123"; "NM1*87*2******XX*999";
           "N3*9 LOCKBOX"; "N4*CITY*NY*10001"; "CLM*A1*100"]%string.

(** [content] has at offset [i] the letters I, S, A in either case
    followed by [sep], which is not a newline. *)
Definition isa_marker (content : str) (i : nat) (sep : ascii) : Prop :=
  exists pre a b c post,
    content = pre ++ a :: b :: c :: sep :: post
    /\ length pre = i
    /\ matches_ci "I" "i" a = true
    /\ matches_ci "S" "s" b = true
    /\ matches_ci "A" "a" c = true
    /\ sep <> newline.


(** ** Tokenization (step 3 of [read_x12_segments])

    [str.upper] maps two characters of the modelled range outside it
    (the micro sign and y with diaeresis); the upper case of a text that
    has one of them is not modelled ([None]). *)

Definition upper_chr (c : ascii) : option str :=
  if in_range 97 122 c then Some [ascii_of_N (code c - 32)]
  else if (code c =? 181)%N || (code c =? 255)%N then None
  else if (code c =? 223)%N then Some (txt "SS")
  else if in_range 224 254 c && negb (code c =? 247)%N
       then Some [ascii_of_N (code c - 32)]
  else Some [c].

(** [s.upper()] *)
Fixpoint upper (s : str) : option str :=
  match s with
  | [] => Some []
  | c :: t =>
      match upper_chr c, upper t with
      | Some u, Some r => Some (u ++ r)
      | _, _ => None
      end
  end.

(** The loop over [content[parse_start:].split(seg_term)], on the list of
    chunks. *)
Fixpoint tokenize_chunks (ele_sep : ascii) (chunks : list str)
  : option (list segment) :=
  match chunks with
  | [] => Some []
  | raw_seg :: rest =>
      let seg := strip raw_seg in
      if is_empty seg then tokenize_chunks ele_sep rest
      else
        let elements := split ele_sep seg in
        match upper (strip (el elements 0)) with
        | None => None
        | Some seg_id =>
            if is_empty seg_id then tokenize_chunks ele_sep rest
            else cons (seg_id, elements) <$> tokenize_chunks ele_sep rest
        end
  end.

Definition tokenize (text : str) (ele_sep seg_term : ascii)
  : option (list segment) :=
  tokenize_chunks ele_sep (split seg_term text).

(** [read_x12_segments] from the decoded text on: what it returns or
    raises, or [None] where the upper case of an identifier is not
    modelled. *)
Definition read_x12_segments (content : str)
  : option (error + (list segment * ascii * ascii)) :=
  match detect_delimiters content with
  | inl e => Some (inl e)
  | inr d =>
      (fun segments => inr (segments, ele_sep d, seg_term d))
        <$> tokenize (drop (parse_start d) content) (ele_sep d) (seg_term d)
  end.

(** [parse_x12_for_viewer] from the decoded text on. *)
Definition parse_text (content : str) : option (error + parsed) :=
  parse_x12_for_viewer <$> read_x12_segments content.

(** [sep.join(pieces)] *)
Fixpoint join (sep : ascii) (pieces : list str) : str :=
  match pieces with
  | [] => []
  | [p] => p
  | p :: rest => p ++ sep :: join sep rest
  end.

(** The text of a list of segments, each closed by the terminator. *)
Definition segments_text (sep term : ascii) (lines : list (list str)) : str :=
  concat (map (fun elements => join sep elements ++ [term]) lines).

(** A segment as it is written: it has a first element, no element holds
    a delimiter, and the line neither starts nor ends with whitespace. *)
Definition written_segment (sep term : ascii) (elements : list str) : Prop :=
  elements <> []
  /\ Forall (fun e => sep ∉ e /\ term ∉ e) elements
  /\ (exists c, head (el elements 0) = Some c /\ isspace c = false)
  /\ (forall c, last (join sep elements) = Some c -> isspace c = false).

Definition claim_file : str :=
  txt "ISA*00*          *00*          *ZZ*SENDER         *ZZ*RECEIVER       *230415*1430*^*00501*000000001*0*P*:~ST*837*0001~NM1*85*2*CLINIC*****XX*123~clm*A1*100~LX*1~SV1*HC:99213*100*UN*1~SE*6*0001~".

(** No party, no claim and no buffer entry of a named entity refers to
    one of the first [n] address dicts of the store. *)
Definition early_dicts_unused (n : nat) (st : state) : Prop :=
  n <= length (addresses st)
  /\ (forall l, l ∈ address_refs st -> n <= l)
  /\ (forall e l, temp_addresses st !! Some e = Some l -> n <= l).

(** The letters I, S, A in upper or lower case. *)
Definition isa_tag (tag : str) : bool :=
  match tag with
  | [a; b; c] =>
      matches_ci "I" "i" a && matches_ci "S" "s" b && matches_ci "A" "a" c
  | _ => false
  end.
(** * Properties *)

(** ** Text *)

Lemma chr_eqb_eq a b : chr_eqb a b = true <-> a = b.
Proof. apply Ascii.eqb_eq. Qed.

Lemma chr_eqb_neq a b : chr_eqb a b = false <-> a <> b.
Proof. apply Ascii.eqb_neq. Qed.

Lemma chr_eqb_refl a : chr_eqb a a = true.
Proof. apply Ascii.eqb_refl. Qed.

Lemma contains_elem_of c s : contains c s = true <-> c ∈ s.
Proof.
  unfold contains. rewrite existsb_exists. split.
  - intros (x & Hx & Heq). apply chr_eqb_eq in Heq. subst.
    by apply list_elem_of_In.
  - intros H. exists c. split; [by apply list_elem_of_In | apply chr_eqb_refl].
Qed.

Lemma contains_false c s : contains c s = false <-> c ∉ s.
Proof.
  rewrite <- contains_elem_of. destruct (contains c s); split; congruence.
Qed.

Lemma split_not_nil sep s : split sep s <> [].
Proof.
  destruct s as [|c t]; simpl; [done|].
  destruct (chr_eqb c sep); [done|]. by destruct (split sep t).
Qed.

Lemma split_app_sep sep p r :
  sep ∉ p -> split sep (p ++ sep :: r) = p :: split sep r.
Proof.
  induction p as [|c p IH]; intros Hp; simpl.
  - by rewrite chr_eqb_refl.
  - apply not_elem_of_cons in Hp as [Hc Hp].
    assert (chr_eqb c sep = false) as -> by (apply chr_eqb_neq; congruence).
    by rewrite IH.
Qed.

Lemma split_no_sep sep p : sep ∉ p -> split sep p = [p].
Proof.
  induction p as [|c p IH]; intros Hp; simpl; [done|].
  apply not_elem_of_cons in Hp as [Hc Hp].
  assert (chr_eqb c sep = false) as -> by (apply chr_eqb_neq; congruence).
  by rewrite IH.
Qed.

(** The pieces of a text that has a separator end with what follows the
    last one. *)
Lemma split_ends_with sep pre suf :
  sep ∉ suf ->
  exists init, init <> [] /\ split sep (pre ++ sep :: suf) = init ++ [suf].
Proof.
  intros Hsuf. induction pre as [|c pre (init & Hne & IH)]; simpl.
  - exists [[]]. rewrite chr_eqb_refl, split_no_sep by done. done.
  - rewrite IH. destruct (chr_eqb c sep).
    + by exists ([] :: init).
    + destruct init as [|i rest]; [done|]. by exists ((c :: i) :: rest).
Qed.

Lemma last_occurrence (c : ascii) s :
  c ∈ s -> exists pre suf, s = pre ++ c :: suf /\ c ∉ suf.
Proof.
  induction s as [|x s IH]; intros Hin; [by apply elem_of_nil in Hin|].
  destruct (decide (c ∈ s)) as [Hs|Hs].
  - destruct (IH Hs) as (pre & suf & -> & Hsuf). by exists (x :: pre), suf.
  - apply elem_of_cons in Hin as [->|]; [|done]. by exists [], s.
Qed.

Lemma update_last_snoc {A} (f : A -> A) l x :
  update_last f (l ++ [x]) = l ++ [f x].
Proof.
  induction l as [|y l IH]; [done|]. simpl. rewrite IH.
  by destruct l.
Qed.

(** ** The code normalizer *)

(** C8. [clean_code] returns what follows the last colon of the cleaned
    value when that value has a colon, and the cleaned value itself when it
    has none; ["ABK:K0230"] becomes ["K0230"] and ["K0230"] stays. *)
Theorem clean_code_suffix_after_last_colon :
  (forall code,
     let cleaned := clean_value code in
     (contains ":" cleaned = true ->
      exists prefix, cleaned = prefix ++ ":"%char :: clean_code code
                     /\ ":"%char ∉ clean_code code)
     /\ (contains ":" cleaned = false -> clean_code code = cleaned))
  /\ clean_code (txt "ABK:K0230") = txt "K0230"
  /\ clean_code (txt "K0230") = txt "K0230".
Proof.
  split; [|by split].
  intros code cleaned. unfold clean_code. fold cleaned.
  destruct code as [|c code]; [by split|]. cbn [is_empty].
  split; intros H; rewrite H; [|done].
  apply contains_elem_of, last_occurrence in H as (pre & suf & Heq & Hsuf).
  destruct (split_ends_with ":" pre suf Hsuf) as (init & _ & Hsplit).
  exists pre. unfold last_piece. rewrite Heq, Hsplit, last_last. done.
Qed.

Lemma clean_code_suffix_witness :
  contains ":" (clean_value (txt "ABK:K0230")) = true
  /\ exists prefix,
       clean_value (txt "ABK:K0230")
       = prefix ++ ":"%char :: clean_code (txt "ABK:K0230")
       /\ ":"%char ∉ clean_code (txt "ABK:K0230").
Proof.
  split; [reflexivity|].
  apply (proj1 clean_code_suffix_after_last_colon (txt "ABK:K0230")).
  reflexivity.
Defined.

(** ** The procedure code of a service line *)

(** C10. An SV1 segment met with an open claim that has a service line
    rewrites the last line.  When the cleaned procedure code has two
    colons or more, the qualifier is the text before the first colon and
    the code is the text between the first two (not what follows the last
    colon); when it is one colon with nothing after it, the code is the
    empty string. *)
Theorem sv1_procedure_code st c lines svc elements :
  current_claim st = Some c ->
  serviceLines c = lines ++ [svc] ->
  exists c' svc',
    current_claim (step st (txt "SV1", elements)) = Some c'
    /\ serviceLines c' = lines ++ [svc']
    /\ (forall a b rest,
          clean_value (el elements 1) = a ++ ":"%char :: b ++ ":"%char :: rest ->
          ":"%char ∉ a -> ":"%char ∉ b ->
          codeQualifier svc' = a /\ procedureCode svc' = b)
    /\ (forall a,
          clean_value (el elements 1) = a ++ [":"%char] ->
          ":"%char ∉ a ->
          codeQualifier svc' = a /\ procedureCode svc' = []).
Proof.
  intros Hc Hlines.
  assert (serviceLines c <> []) as Hne by (rewrite Hlines; by destruct lines).
  cbn [step]. change (classify (txt "SV1")) with SV1. cbv iota.
  unfold on_SV1. rewrite Hc, bool_decide_eq_false_2 by done.
  rewrite Hlines, update_last_snoc.
  eexists _, (sv1_line elements svc). split; [reflexivity|].
  split; [by destruct (_ && _)|].
  split.
  - intros a b rest Hproc Ha Hb. unfold sv1_line; cbn.
    assert (contains ":" (clean_value (el elements 1)) = true) as ->.
    { apply contains_elem_of. rewrite Hproc. set_solver. }
    rewrite Hproc, split_app_sep, split_app_sep by done.
    split; [done|]. cbn. by destruct (split ":" rest).
  - intros a Hproc Ha. unfold sv1_line; cbn.
    assert (contains ":" (clean_value (el elements 1)) = true) as ->.
    { apply contains_elem_of. rewrite Hproc. set_solver. }
    rewrite Hproc, split_app_sep by done. done.
Qed.

Lemma sv1_procedure_code_witness :
  exists c' svc',
    current_claim (step (run initial one_line_stream) (txt "SV1", sv1_elements))
    = Some c'
    /\ serviceLines c' = [svc']
    /\ codeQualifier svc' = txt "HC" /\ procedureCode svc' = txt "99213".
Proof.
  destruct (sv1_procedure_code (run initial one_line_stream) _ [] _ sv1_elements
              eq_refl eq_refl) as (c' & svc' & Hc & Hlines & Htwo & _).
  exists c', svc'. split; [exact Hc|]. split; [exact Hlines|].
  apply (Htwo (txt "HC") (txt "99213") (txt "25")).
  - reflexivity.
  - apply (bool_decide_unpack _). vm_compute. exact I.
  - apply (bool_decide_unpack _). vm_compute. exact I.
Defined.

(** ** Delimiter detection *)

Lemma split_max_not_nil sep n s : split_max sep n s <> [].
Proof.
  destruct s as [|c t]; simpl; [done|]. destruct n as [|n]; [done|].
  destruct (chr_eqb c sep); [done|]. by destruct (split_max sep (S n) t).
Qed.

Lemma split_max_app_sep sep n p r :
  sep ∉ p -> split_max sep (S n) (p ++ sep :: r) = p :: split_max sep n r.
Proof.
  induction p as [|c p IH]; intros Hp; simpl.
  - by rewrite chr_eqb_refl.
  - apply not_elem_of_cons in Hp as [Hc Hp].
    assert (chr_eqb c sep = false) as -> by (apply chr_eqb_neq; congruence).
    by rewrite IH.
Qed.

Lemma split_max_fields sep n fields tail :
  Forall (fun f => sep ∉ f) fields ->
  split_max sep (length fields + n) (fields_text sep fields tail)
  = fields ++ split_max sep n tail.
Proof.
  induction 1 as [|f fields Hf _ IH]; [done|].
  cbn [fields_text fold_right length Nat.add].
  rewrite split_max_app_sep by done. fold (fields_text sep fields tail).
  by rewrite IH.
Qed.

(** No piece before the last holds the separator. *)
Lemma split_max_piece_no_sep sep n s i :
  i < n -> sep ∉ nth i (split_max sep n s) [].
Proof.
  revert n i. induction s as [|c t IH]; intros n i Hi.
  - destruct i as [|[|i]]; apply not_elem_of_nil.
  - destruct n as [|n]; [lia|]. simpl.
    destruct (chr_eqb c sep) eqn:Hc.
    + destruct i as [|i]; [apply not_elem_of_nil|]. apply IH. lia.
    + apply chr_eqb_neq in Hc. specialize (IH (S n)).
      destruct (split_max sep (S n) t) as [|p ps] eqn:Hs.
      * destruct i as [|[|i]]; cbn; rewrite ?elem_of_cons; set_solver.
      * destruct i as [|i]; cbn.
        -- specialize (IH 0 ltac:(lia)). cbn in IH. set_solver.
        -- specialize (IH (S i) Hi). by cbn in IH.
Qed.

Lemma isa_search_from_sound pos s k sep :
  isa_search_from pos s = Some (k, sep) ->
  pos <= k /\ isa_here (drop (k - pos) s) = Some sep.
Proof.
  revert pos. induction s as [|c t IH]; intros pos; [done|].
  cbn [isa_search_from]. destruct (isa_here (c :: t)) eqn:Hh.
  - intros [= <- <-]. by rewrite Nat.sub_diag.
  - intros H. apply IH in H as [Hle H]. split; [lia|].
    by replace (k - pos) with (S (k - S pos)) by lia.
Qed.

Lemma isa_here_not_newline s sep : isa_here s = Some sep -> sep <> newline.
Proof.
  destruct s as [|i [|s' [|a [|c t]]]]; try done. cbn.
  destruct (chr_eqb c newline) eqn:Hc; rewrite ?andb_false_r; [done|].
  apply chr_eqb_neq in Hc. destruct (_ && _); [|done]. by intros [= <-].
Qed.

Lemma split_max_isa sep tag fields isa16 term rest :
  length fields = 15 ->
  sep ∉ tag -> Forall (fun f => sep ∉ f) fields ->
  isa16 <> sep -> term <> sep ->
  exists piece pieces,
    split_max sep 17 (isa_text sep tag fields isa16 term rest)
    = tag :: fields ++ (isa16 :: term :: piece) :: pieces.
Proof.
  intros Hlen Htag Hfields H16 Hterm. unfold isa_text.
  rewrite split_max_app_sep by done.
  change 16 with (15 + 1). rewrite <- Hlen, split_max_fields by done.
  cbn [split_max].
  assert (chr_eqb isa16 sep = false) as -> by by apply chr_eqb_neq.
  assert (chr_eqb term sep = false) as -> by by apply chr_eqb_neq.
  pose proof (split_max_not_nil sep 1 rest) as Hne.
  destruct rest as [|c rest].
  - by exists [], [].
  - destruct (split_max sep 1 (c :: rest)) as [|p ps]; [done|]. by exists p, ps.
Qed.

(** C3. When the marker the search finds opens an interchange header
    whose fifteen first elements and tag are free of the separator and
    whose 16th element is one character, the terminator returned is the
    character after that element, whatever the two delimiters are as long
    as they differ.  When the cut at the separator gives fewer than 17
    pieces, or piece 16 has fewer than 2 characters, detection fails with
    a format error. *)
Theorem isa_terminator_follows_isa16 :
  (forall pre sep tag fields isa16 term rest,
     isa_search (pre ++ isa_text sep tag fields isa16 term rest)
     = Some (length pre, sep) ->
     length fields = 15 ->
     sep ∉ tag -> Forall (fun f => sep ∉ f) fields ->
     isa16 <> sep -> term <> sep ->
     detect_delimiters (pre ++ isa_text sep tag fields isa16 term rest)
     = inr (mkDelimiters sep term (length pre)))
  /\ (forall content start sep,
        isa_search content = Some (start, sep) ->
        let parts := split_max sep 17 (drop start content) in
        length parts < 17 \/ length (nth 16 parts []) < 2 ->
        exists e, detect_delimiters content = inl e /\ is_FormatError e = true).
Proof.
  split.
  - intros pre sep tag fields isa16 term rest Hsearch Hlen Htag Hfields H16 Hterm.
    unfold detect_delimiters. rewrite Hsearch, drop_app_length.
    destruct (split_max_isa sep tag fields isa16 term rest)
      as (piece & pieces & ->); try done.
    assert (length (tag :: fields ++ (isa16 :: term :: piece) :: pieces) <? 17
            = false) as ->.
    { apply Nat.ltb_ge. cbn. rewrite length_app, Hlen. cbn. lia. }
    assert (nth 16 (tag :: fields ++ (isa16 :: term :: piece) :: pieces) []
            = isa16 :: term :: piece) as ->.
    { cbn [nth]. rewrite app_nth2 by lia. by rewrite Hlen. }
    done.
  - intros content start sep Hsearch parts Hshort.
    unfold detect_delimiters. rewrite Hsearch. fold parts.
    destruct (length parts <? 17) eqn:Hparts.
    + by exists IsaMissingSeparators.
    + apply Nat.ltb_ge in Hparts.
      destruct Hshort as [Hshort|Hshort]; [lia|].
      apply Nat.ltb_lt in Hshort. rewrite Hshort. by exists IsaTruncated.
Qed.

Lemma isa_terminator_witness :
  detect_delimiters isa_document = inr (mkDelimiters "*" "~" 0)
  /\ exists e, detect_delimiters truncated_document = inl e
               /\ is_FormatError e = true.
Proof.
  split.
  - apply (proj1 isa_terminator_follows_isa16 [] "*"%char (txt "ISA") isa_fields
             ":"%char "~"%char (txt "GS*HC*SENDER*RECEIVER~")).
    + reflexivity.
    + reflexivity.
    + apply (bool_decide_unpack _). vm_compute. exact I.
    + apply (bool_decide_unpack _). vm_compute. exact I.
    + apply (bool_decide_unpack _). vm_compute. exact I.
    + apply (bool_decide_unpack _). vm_compute. exact I.
  - apply (proj2 isa_terminator_follows_isa16 truncated_document 0 "*"%char).
    + reflexivity.
    + left. vm_compute. lia.
Defined.

Lemma st_here_marker prev s e :
  st_here prev s = Some e <-> st_marker_after prev s 0 e.
Proof.
  split.
  - destruct s as [|a [|b [|c t]]]; try done. cbn.
    destruct (not_after_alnum prev) eqn:Hp; [|done].
    destruct (chr_eqb a "S") eqn:Ha; [|done].
    destruct (chr_eqb b "T") eqn:Hb; [|done].
    destruct (is_ascii_alnum c) eqn:Hc; [done|].
    destruct (isspace c) eqn:Hs; [done|]. cbn. intros [= <-].
    apply chr_eqb_eq in Ha, Hb. subst. by exists [], t.
  - intros (pre & post & -> & Hlen & Halnum & Hspace & Hprev).
    destruct pre; [|done]. cbn in *.
    by rewrite Hprev, Halnum, Hspace.
Qed.

Lemma char_before_cons prev c pre :
  char_before prev (c :: pre) = char_before (Some c) pre.
Proof.
  unfold char_before. rewrite last_cons. by destruct (last pre).
Qed.

Lemma st_marker_after_cons prev c t i e :
  st_marker_after prev (c :: t) (S i) e <-> st_marker_after (Some c) t i e.
Proof.
  split.
  - intros (pre & post & Heq & Hlen & Halnum & Hspace & Hprev).
    destruct pre as [|c' pre]; [done|]. injection Heq as <- ->.
    rewrite char_before_cons in Hprev.
    exists pre, post. repeat split; try done. by injection Hlen.
  - intros (pre & post & -> & Hlen & Halnum & Hspace & Hprev).
    exists (c :: pre), post. rewrite char_before_cons.
    repeat split; try done. cbn. by rewrite Hlen.
Qed.

Lemma st_marker_after_nil prev i e : ~ st_marker_after prev [] i e.
Proof. intros (pre & post & Heq & _). by destruct pre. Qed.

(** The search returns the leftmost marker. *)
Lemma st_search_from_Some prev pos s k e :
  st_search_from prev pos s = Some (k, e) ->
  exists i, k = pos + i
            /\ st_marker_after prev s i e
            /\ forall j e', j < i -> ~ st_marker_after prev s j e'.
Proof.
  revert prev pos. induction s as [|c t IH]; intros prev pos; [done|].
  cbn [st_search_from]. destruct (st_here prev (c :: t)) as [e0|] eqn:Hh.
  - intros [= <- <-]. exists 0. split; [lia|].
    split; [by apply st_here_marker|]. intros; lia.
  - intros H. apply IH in H as (i & -> & Hm & Hleft).
    exists (S i). split; [lia|]. split; [by apply st_marker_after_cons|].
    intros [|j] e' Hj.
    + rewrite <- st_here_marker. congruence.
    + rewrite st_marker_after_cons. apply Hleft. lia.
Qed.

Lemma st_search_from_None prev pos s :
  st_search_from prev pos s = None -> forall i e, ~ st_marker_after prev s i e.
Proof.
  revert prev pos. induction s as [|c t IH]; intros prev pos.
  - intros _ i e. apply st_marker_after_nil.
  - cbn [st_search_from]. destruct (st_here prev (c :: t)) as [e0|] eqn:Hh; [done|].
    intros H [|i] e.
    + rewrite <- st_here_marker. congruence.
    + rewrite st_marker_after_cons. by eapply IH.
Qed.

(** C5 as amended.  In a document where the search for ISA finds nothing,
    detection succeeds exactly when the text has the letters ST followed
    by a character that is neither an ASCII letter or digit nor
    whitespace, and not preceded by an ASCII letter or digit; the
    separator is then the character after the leftmost such marker, and
    without a marker detection fails with the format error. *)
Theorem st_detection_iff_marker content :
  isa_search content = None ->
  ((exists d, detect_delimiters content = inr d)
   <-> exists i sep, st_marker content i sep)
  /\ (forall d, detect_delimiters content = inr d ->
        st_marker content (parse_start d) (ele_sep d)
        /\ forall j e, j < parse_start d -> ~ st_marker content j e)
  /\ ((~ exists i sep, st_marker content i sep) ->
      detect_delimiters content = inl NoIsaOrSt).
Proof.
  intros Hisa. unfold detect_delimiters, st_marker, st_search. rewrite Hisa.
  destruct (st_search_from None 0 content) as [[k e]|] eqn:Hst.
  - apply st_search_from_Some in Hst as (i & -> & Hm & Hleft).
    split; [|split].
    + split; [by exists i, e | by eexists].
    + intros d [= <-]. cbn. done.
    + intros Hno. exfalso. apply Hno. by exists i, e.
  - pose proof (st_search_from_None _ _ _ Hst) as Hno.
    split; [|split].
    + split; [by intros [d ?] | intros (i & e & Hm); by apply Hno in Hm].
    + done.
    + done.
Qed.

Lemma st_detection_witness :
  (exists d, detect_delimiters (txt "ST*837*0001~BHT*0019") = inr d)
  <-> exists i sep, st_marker (txt "ST*837*0001~BHT*0019") i sep.
Proof.
  apply (st_detection_iff_marker (txt "ST*837*0001~BHT*0019")).
  reflexivity.
Defined.

(** C5, counterexample.  The text ["ST 837"] has no ISA and has ST
    followed by a space, which is not alphanumeric, at its very start;
    detection fails on it. *)
Lemma st_followed_by_space_rejected :
  isa_search (txt "ST 837") = None
  /\ st_marker_any_nonalnum (txt "ST 837") 0 " "
  /\ detect_delimiters (txt "ST 837") = inl NoIsaOrSt.
Proof.
  split; [reflexivity|]. split; [|reflexivity].
  exists [], (txt "837"). by repeat split.
Qed.

Lemma scan_terminator_spec sep s :
  isalnum (scan_terminator sep s) = false
  /\ (scan_terminator sep s = sep -> scan_terminator sep s = "~"%char).
Proof.
  induction s as [|ch t IH]; [done|]. cbn [scan_terminator].
  destruct (isalnum ch) eqn:Ha; [done|].
  destruct (chr_eqb ch sep) eqn:Hs; [done|].
  destruct (harmless ch); [done|]. cbn.
  apply chr_eqb_neq in Hs. done.
Qed.

Lemma nth_elem_of (s : str) i d : i < length s -> nth i s d ∈ s.
Proof. intros H. apply list_elem_of_In. by apply nth_In. Qed.

(** C4 as amended.  On success the two delimiters are single characters.
    With an interchange header the separator is the character after the
    marker, any character but a newline, and the terminator differs from
    it.  Without one the separator is neither an ASCII letter or digit
    nor whitespace, the terminator is not alphanumeric, and the
    terminator can only equal the separator by being the tilde. *)
Theorem delimiters_on_success content d :
  detect_delimiters content = inr d ->
  (forall start sep,
     isa_search content = Some (start, sep) ->
     ele_sep d = sep /\ sep <> newline /\ seg_term d <> ele_sep d)
  /\ (isa_search content = None ->
      is_ascii_alnum (ele_sep d) = false
      /\ isspace (ele_sep d) = false
      /\ isalnum (seg_term d) = false
      /\ (seg_term d = ele_sep d -> seg_term d = "~"%char)).
Proof.
  unfold detect_delimiters. intros Hd. split.
  - intros start sep Hisa. rewrite Hisa in Hd.
    destruct (_ <? 17); [done|].
    destruct (length _ <? 2) eqn:Hlen; [done|]. apply Nat.ltb_ge in Hlen.
    injection Hd as <-. cbn. split; [done|]. split.
    + apply isa_search_from_sound in Hisa as [_ Hisa].
      by eapply isa_here_not_newline.
    + intros Heq.
      apply (split_max_piece_no_sep sep 17 (drop start content) 16); [lia|].
      rewrite <- Heq at 1. apply nth_elem_of. lia.
  - intros Hisa. rewrite Hisa in Hd. unfold st_search in Hd.
    destruct (st_search_from None 0 content) as [[k e]|] eqn:Hst; [|done].
    injection Hd as <-. cbn.
    apply st_search_from_Some in Hst
      as (i & _ & (pre & post & _ & _ & Halnum & Hspace & _) & _).
    destruct (scan_terminator_spec e (drop k content)). done.
Qed.

Lemma delimiters_on_success_witness :
  (forall start sep,
     isa_search isa_document = Some (start, sep) ->
     "*"%char = sep /\ sep <> newline /\ "~"%char <> "*"%char)
  /\ (isa_search isa_document = None ->
      is_ascii_alnum "*" = false /\ isspace "*" = false
      /\ isalnum "~" = false /\ ("~"%char = "*"%char -> "~"%char = "~"%char)).
Proof.
  apply (delimiters_on_success isa_document (mkDelimiters "*" "~" 0)).
  reflexivity.
Defined.

(** C4, counterexample.  A header written with the letter Q between its
    elements is accepted with Q, an alphanumeric character, as separator;
    and the header-less text ["ST~837"] is accepted with the tilde as
    both separator and terminator. *)
Lemma alphanumeric_or_equal_delimiters_accepted :
  (exists d, detect_delimiters letter_separated_document = inr d
             /\ ele_sep d = "Q"%char /\ isalnum (ele_sep d) = true)
  /\ (exists d, detect_delimiters (txt "ST~837") = inr d
                /\ ele_sep d = seg_term d).
Proof.
  split; eexists; (split; [reflexivity|]); by vm_compute.
Qed.

(** ** The loop *)

Lemma run_app st a b : run st (a ++ b) = run (run st a) b.
Proof. apply fold_left_app. Qed.

Lemma run_cons st seg segs : run st (seg :: segs) = run (step st seg) segs.
Proof. done. Qed.

Lemma run_snoc st segs seg : run st (segs ++ [seg]) = step (run st segs) seg.
Proof. by rewrite run_app. Qed.

Lemma map_update_last {A B} (g : A -> B) (f : A -> A) l :
  (forall x, g (f x) = g x) -> map g (update_last f l) = map g l.
Proof.
  intros Hg. induction l as [|x l IH]; [done|].
  destruct l as [|y l]; [cbn; by rewrite Hg|].
  change (update_last f (x :: y :: l)) with (x :: update_last f (y :: l)).
  cbn [map] in *. by rewrite IH.
Qed.

Lemma lx_numbers_app a b : lx_numbers (a ++ b) = lx_numbers a ++ lx_numbers b.
Proof. unfold lx_numbers. by rewrite List.filter_app, map_app. Qed.

Ltac step_cases :=
  repeat match goal with
    | |- context [match ?x with _ => _ end] => destruct x eqn:?
    | |- context [if ?x then _ else _] => destruct x eqn:?
    end.

Lemma step_keeps_claims st seg :
  is_CLM seg = false ->
  claims_data (step st seg) = claims_data st
  /\ match current_claim st with
     | Some c => exists c', current_claim (step st seg) = Some c'
                            /\ claim_extends seg c c'
     | None => current_claim (step st seg) = None
     end.
Proof.
  destruct seg as [seg_id elements]. unfold is_CLM, claim_extends, lx_numbers, is_LX.
  unfold step, line_numbers. cbn [fst snd List.filter].
  destruct (classify seg_id) eqn:Hk; try done; intros _; cbn [map].
  all: rewrite ?app_nil_r.
  all: destruct (current_claim st) as [c|] eqn:Hc.
  all: unfold on_ISA, on_ST, on_BHT, on_NM1, on_N3, on_N4, on_PER, on_SBR,
         on_DMG, on_HI, on_DTP, on_REF, on_LX, on_SV1, name_provider, alloc.
  all: cbn; rewrite ?Hc; step_cases; cbn; rewrite ?Hc; try done.
  all: try (split; [done|]; eexists; split; [reflexivity|]; cbn;
            rewrite ?map_app; try done).
  all: rewrite ?app_nil_r; split; try done.
  all: apply map_update_last; by intros [].
Qed.

Lemma run_keeps_claims st segs :
  Forall (fun seg => is_CLM seg = false) segs ->
  claims_data (run st segs) = claims_data st
  /\ match current_claim st with
     | Some c => exists c', current_claim (run st segs) = Some c'
                            /\ claim_id c' = claim_id c
                            /\ line_numbers c' = line_numbers c ++ lx_numbers segs
     | None => current_claim (run st segs) = None
     end.
Proof.
  intros H. revert st. induction H as [|seg segs Hseg _ IH]; intros st.
  - change (run st []) with st. split; [done|].
    destruct (current_claim st) as [c|]; [|done].
    exists c. by rewrite app_nil_r.
  - rewrite run_cons. destruct (IH (step st seg)) as [-> IHc].
    destruct (step_keeps_claims st seg Hseg) as [-> Hc]. split; [done|].
    destruct (current_claim st) as [c|].
    + destruct Hc as (c1 & Hc1 & Hid1 & Hln1). rewrite Hc1 in IHc.
      destruct IHc as (c' & Hc' & Hid & Hln). exists c'. split; [done|].
      split; [congruence|].
      rewrite Hln, Hln1, <- app_assoc, <- lx_numbers_app. done.
    + by rewrite Hc in IHc.
Qed.

Lemma step_CLM st seg :
  is_CLM seg = true ->
  claims_data (step st seg) = claims_data st ++ option_list (current_claim st)
  /\ current_claim (step st seg) = Some (new_claim (snd seg)).
Proof.
  destruct seg as [seg_id elements]. unfold is_CLM, step. cbn [fst snd].
  destruct (classify seg_id); try done. intros _. unfold on_CLM.
  destruct (current_claim st); cbn; by rewrite ?app_nil_r.
Qed.

Lemma claims_data_finish st :
  claims_data (finish st) = claims_data st ++ option_list (current_claim st).
Proof.
  unfold finish, default_pay_to, commit_open, copy_provider, alloc.
  destruct (current_claim st); cbn; destruct (falsy _); cbn;
    by rewrite ?app_nil_r.
Qed.

(** C1. A stream with two CLM segments and no other commits two claims,
    in the order of the stream.  The first is the claim as it stood when
    the second CLM arrived, and its service lines are those of the LX
    segments between the two headers; the service lines of the second are
    those of the LX segments after the second header.  Nothing that
    follows the second header reaches the first claim. *)
Theorem two_claims_own_their_lines pre clm1 mid clm2 post :
  is_CLM clm1 = true -> is_CLM clm2 = true ->
  Forall (fun seg => is_CLM seg = false) pre ->
  Forall (fun seg => is_CLM seg = false) mid ->
  Forall (fun seg => is_CLM seg = false) post ->
  exists c1 c2,
    claims_data (finish (run initial (pre ++ clm1 :: mid ++ clm2 :: post)))
    = [c1; c2]
    /\ current_claim (run initial (pre ++ clm1 :: mid)) = Some c1
    /\ claim_id c1 = clean_value (el (snd clm1) 1)
    /\ claim_id c2 = clean_value (el (snd clm2) 1)
    /\ line_numbers c1 = lx_numbers mid
    /\ line_numbers c2 = lx_numbers post.
Proof.
  intros Hclm1 Hclm2 Hpre Hmid Hpost.
  destruct (run_keeps_claims initial pre Hpre) as [Hd0 Hc0]. cbn in Hd0, Hc0.
  destruct (step_CLM (run initial pre) clm1 Hclm1) as [Hd1 Hc1].
  rewrite Hd0, Hc0 in Hd1. cbn in Hd1.
  destruct (run_keeps_claims (step (run initial pre) clm1) mid Hmid) as [Hd2 Hc2].
  rewrite Hc1 in Hc2. destruct Hc2 as (c1 & Hc2 & Hid1 & Hln1).
  rewrite Hd1 in Hd2.
  assert (run initial (pre ++ clm1 :: mid)
          = run (step (run initial pre) clm1) mid) as Hrun1.
  { by rewrite run_app, run_cons. }
  rewrite <- Hrun1 in Hd2, Hc2.
  destruct (step_CLM (run initial (pre ++ clm1 :: mid)) clm2 Hclm2) as [Hd3 Hc3].
  rewrite Hd2, Hc2 in Hd3. cbn in Hd3.
  destruct (run_keeps_claims (step (run initial (pre ++ clm1 :: mid)) clm2)
              post Hpost) as [Hd4 Hc4].
  rewrite Hc3 in Hc4. destruct Hc4 as (c2 & Hc4 & Hid2 & Hln2).
  rewrite Hd3 in Hd4.
  assert (run initial (pre ++ clm1 :: mid ++ clm2 :: post)
          = run (step (run initial (pre ++ clm1 :: mid)) clm2) post) as Hrun2.
  { change (pre ++ clm1 :: mid ++ clm2 :: post)
      with (pre ++ (clm1 :: mid) ++ clm2 :: post).
    by rewrite app_assoc, run_app, run_cons. }
  exists c1, c2. rewrite claims_data_finish, Hrun2, Hd4, Hc4.
  repeat split; try done.
Qed.

Lemma two_claims_witness :
  exists c1 c2,
    claims_data (finish (run initial two_claim_stream)) = [c1; c2]
    /\ current_claim (run initial (take 8 two_claim_stream)) = Some c1
    /\ claim_id c1 = txt "A1"
    /\ claim_id c2 = txt "A2"
    /\ line_numbers c1 = [IntOf (txt "1"); IntOf (txt "2")]
    /\ line_numbers c2 = [IntOf (txt "1")].
Proof.
  set (pre := take 3 two_claim_stream).
  set (clm1 := seg "CLM*A1*100***11:B:1*Y*A*Y*Y").
  set (mid := take 4 (drop 4 two_claim_stream)).
  set (clm2 := seg "CLM*A2*50").
  set (post := drop 9 two_claim_stream).
  assert (is_CLM clm1 = true) as H1 by reflexivity.
  assert (is_CLM clm2 = true) as H2 by reflexivity.
  assert (Forall (fun seg => is_CLM seg = false) pre) as H3
    by (apply (bool_decide_unpack _); vm_compute; exact I).
  assert (Forall (fun seg => is_CLM seg = false) mid) as H4
    by (apply (bool_decide_unpack _); vm_compute; exact I).
  assert (Forall (fun seg => is_CLM seg = false) post) as H5
    by (apply (bool_decide_unpack _); vm_compute; exact I).
  pose proof (two_claims_own_their_lines pre clm1 mid clm2 post H1 H2 H3 H4 H5)
    as H.
  assert (pre ++ clm1 :: mid ++ clm2 :: post = two_claim_stream) as E1
    by (vm_compute; reflexivity).
  assert (pre ++ clm1 :: mid = take 8 two_claim_stream) as E2
    by (vm_compute; reflexivity).
  assert (clean_value (el (snd clm1) 1) = txt "A1") as E3
    by (vm_compute; reflexivity).
  assert (clean_value (el (snd clm2) 1) = txt "A2") as E4
    by (vm_compute; reflexivity).
  assert (lx_numbers mid = [IntOf (txt "1"); IntOf (txt "2")]) as E5
    by (vm_compute; reflexivity).
  assert (lx_numbers post = [IntOf (txt "1")]) as E6
    by (vm_compute; reflexivity).
  rewrite E1, E2, E3, E4, E5, E6 in H. exact H.
Defined.

(** ** Order of segment identifiers *)

Lemma code_inj a b : code a = code b -> a = b.
Proof.
  unfold code. intros H.
  rewrite <- (ascii_N_embedding a), <- (ascii_N_embedding b). by rewrite H.
Qed.

Lemma str_compare_eq a b : str_compare a b = Eq -> a = b.
Proof.
  revert b. induction a as [|x a IH]; intros [|y b]; try done. cbn.
  destruct (N.compare_spec (code x) (code y)) as [Hxy| |]; try done.
  intros H. apply code_inj in Hxy. apply IH in H. by subst.
Qed.

Lemma str_compare_refl a : str_compare a a = Eq.
Proof. induction a as [|x a IH]; [done|]. cbn. by rewrite N.compare_refl. Qed.

Lemma str_compare_gt_lt a b : str_compare a b = Gt -> str_compare b a = Lt.
Proof.
  revert b. induction a as [|x a IH]; intros [|y b]; try done. cbn.
  rewrite (N.compare_antisym (code x) (code y)).
  destruct (code x ?= code y)%N; cbn; try done. apply IH.
Qed.

Lemma str_lt_trans a b c : str_lt a b -> str_lt b c -> str_lt a c.
Proof.
  unfold str_lt. revert b c.
  induction a as [|x a IH]; intros [|y b] [|z c]; try done. cbn.
  destruct (N.compare_spec (code x) (code y)) as [Hxy|Hxy|Hxy]; try done;
    destruct (N.compare_spec (code y) (code z)) as [Hyz|Hyz|Hyz]; try done;
    intros Hab Hbc.
  - rewrite Hxy, Hyz, N.compare_refl. by eapply IH.
  - rewrite Hxy. by apply N.compare_lt_iff in Hyz as ->.
  - rewrite <- Hyz. by apply N.compare_lt_iff in Hxy as ->.
  - assert (code x < code z)%N as Hxz by lia.
    by apply N.compare_lt_iff in Hxz as ->.
Qed.

Lemma str_lt_irrefl a : ~ str_lt a a.
Proof. unfold str_lt. by rewrite str_compare_refl. Qed.

Lemma insert_id_elem_of x y l : y ∈ insert_id x l <-> y = x \/ y ∈ l.
Proof.
  induction l as [|z l IH]; cbn.
  - set_solver.
  - destruct (str_compare x z) eqn:Hc.
    + apply str_compare_eq in Hc as ->. set_solver.
    + set_solver.
    + rewrite !elem_of_cons, IH. tauto.
Qed.

Lemma insert_id_HdRel x y l :
  str_lt y x -> HdRel str_lt y l -> HdRel str_lt y (insert_id x l).
Proof.
  intros Hyx Hl. destruct l as [|z l]; cbn; [by constructor|].
  apply HdRel_inv in Hl. destruct (str_compare x z); by constructor.
Qed.

Lemma insert_id_sorted x l : Sorted str_lt l -> Sorted str_lt (insert_id x l).
Proof.
  induction 1 as [|z l Hl IH Hz]; cbn; [by repeat constructor|].
  destruct (str_compare x z) eqn:Hc.
  - by constructor.
  - by repeat constructor.
  - constructor; [done|]. apply insert_id_HdRel; [|done].
    by apply str_compare_gt_lt.
Qed.

Lemma sorted_set_elem_of y ids : y ∈ sorted_set ids <-> y ∈ ids.
Proof.
  induction ids as [|x ids IH]; [done|]. cbn.
  rewrite insert_id_elem_of, IH. set_solver.
Qed.

Lemma sorted_set_sorted ids : StronglySorted str_lt (sorted_set ids).
Proof.
  apply Sorted_StronglySorted; [intros a b c; apply str_lt_trans|].
  induction ids as [|x ids IH]; [constructor|]. by apply insert_id_sorted.
Qed.

(** ** A file without claims *)

Lemma last_CLM segs :
  Forall (fun seg => is_CLM seg = false) segs
  \/ exists a clm b, segs = a ++ clm :: b /\ is_CLM clm = true
                     /\ Forall (fun seg => is_CLM seg = false) b.
Proof.
  induction segs as [|x segs [IH|(a & clm & b & -> & Hclm & Hb)]].
  - by left.
  - destruct (is_CLM x) eqn:Hx.
    + right. by exists [], x, segs.
    + left. by constructor.
  - right. by exists (x :: a), clm, b.
Qed.

Lemma no_claims_iff segs :
  claims_data (finish (run initial segs)) = []
  <-> Forall (fun seg => is_CLM seg = false) segs.
Proof.
  rewrite claims_data_finish. split.
  - intros Hnil. destruct (last_CLM segs) as [|(a & clm & b & -> & Hclm & Hb)];
      [done|]. exfalso.
    rewrite run_app, run_cons in Hnil.
    destruct (step_CLM (run initial a) clm Hclm) as [_ Hc].
    destruct (run_keeps_claims (step (run initial a) clm) b Hb) as [_ Hc'].
    rewrite Hc in Hc'. destruct Hc' as (c' & Hc' & _).
    rewrite Hc' in Hnil. by apply app_eq_nil in Hnil as [_ ?].
  - intros H. destruct (run_keeps_claims initial segs H) as [-> Hc].
    cbn in Hc. by rewrite Hc.
Qed.

Lemma step_tx_type st seg :
  tx_type (transaction (step st seg))
  = if is_ST seg then Some (clean_value (el (snd seg) 1))
    else tx_type (transaction st).
Proof.
  destruct seg as [seg_id elements]. unfold is_ST, step. cbn [fst snd].
  destruct (classify seg_id); try done.
  all: unfold on_ISA, on_NM1, on_N3, on_N4, on_PER, on_SBR, on_DMG, on_CLM,
         on_HI, on_DTP, on_REF, on_LX, on_SV1, name_provider, alloc.
  all: cbn; step_cases; done.
Qed.

Lemma run_tx_type st segs :
  tx_type (transaction (run st segs))
  = match last_ST_type segs with
    | Some t => Some t
    | None => tx_type (transaction st)
    end.
Proof.
  induction segs as [|x segs IH] using rev_ind; [done|].
  rewrite run_snoc, step_tx_type. unfold last_ST_type in *.
  rewrite List.filter_app. cbn [List.filter].
  destruct (is_ST x).
  - by rewrite last_snoc.
  - by rewrite app_nil_r.
Qed.

Lemma transaction_finish st : transaction (finish st) = transaction st.
Proof.
  unfold finish, default_pay_to, commit_open, copy_provider, alloc.
  destruct (current_claim st); cbn; by destruct (falsy _).
Qed.

(** C2. Given what the reader returned, parsing raises the no-claim error
    exactly when the stream has no CLM segment, and it is the only error
    it raises.  The diagnostic then lists the distinct segment identifiers
    of the stream in increasing order, the label of the type the last ST
    segment declared (of ["unknown"] without one), and the two delimiters
    the reader detected. *)
Theorem no_claim_found_iff_no_CLM segments sep term :
  ((exists e, parse_x12_for_viewer (inr (segments, sep, term)) = inl e
              /\ is_NoClaimFound e = true)
   <-> Forall (fun seg => is_CLM seg = false) segments)
  /\ (forall e,
        parse_x12_for_viewer (inr (segments, sep, term)) = inl e ->
        exists d,
          e = NoClmFound d
          /\ StronglySorted str_lt (found_ids d)
          /\ (forall id, id ∈ found_ids d <-> id ∈ map fst segments)
          /\ tx_label d = label_of (default (txt "unknown") (last_ST_type segments))
          /\ diag_ele_sep d = sep
          /\ diag_seg_term d = term).
Proof.
  unfold parse_x12_for_viewer.
  pose proof (no_claims_iff segments) as Hiff.
  destruct (claims_data (finish (run initial segments))) as [|c cs] eqn:Hcd.
  - split.
    + split; [intros _; by apply Hiff | intros _; by eexists].
    + intros e [= <-]. eexists. split; [reflexivity|]. cbn.
      split; [apply sorted_set_sorted|].
      split; [intros id; apply sorted_set_elem_of|].
      split; [|done]. unfold trans_type.
      rewrite transaction_finish, run_tx_type. by destruct (last_ST_type segments).
  - split; [|done]. split.
    + by intros (e & ? & _).
    + intros H. by apply Hiff in H.
Qed.

Lemma no_claim_found_witness :
  exists d,
    NoClmFound (diagnose remittance_stream "*" "~"
                  (finish (run initial remittance_stream))) = NoClmFound d
    /\ StronglySorted str_lt (found_ids d)
    /\ (forall id, id ∈ found_ids d <-> id ∈ map fst remittance_stream)
    /\ tx_label d
       = label_of (default (txt "unknown") (last_ST_type remittance_stream))
    /\ diag_ele_sep d = "*"%char
    /\ diag_seg_term d = "~"%char.
Proof.
  apply (proj2 (no_claim_found_iff_no_CLM remittance_stream "*" "~")).
  reflexivity.
Defined.

(** ** The provider dicts *)

Lemma provider_vars_ok_initial : provider_vars_ok initial.
Proof. repeat split. by exists empty_provider, empty_provider. Qed.

Lemma provider_vars_ok_step st seg :
  provider_vars_ok st -> provider_vars_ok (step st seg).
Proof.
  intros (Hb & Hp & b & p & Hprov). destruct seg as [seg_id elements].
  unfold provider_vars_ok, step.
  destruct (classify seg_id); try done.
  all: unfold on_ISA, on_ST, on_BHT, on_NM1, on_N3, on_N4, on_PER, on_SBR,
         on_DMG, on_CLM, on_HI, on_DTP, on_REF, on_LX, on_SV1, name_provider,
         alloc.
  all: cbn; step_cases; cbn; rewrite ?Hb, ?Hp, ?Hprov; cbn.
  all: repeat split; try done; by eexists _, _.
Qed.

Lemma provider_vars_ok_run st segs :
  provider_vars_ok st -> provider_vars_ok (run st segs).
Proof.
  revert st. induction segs as [|seg segs IH]; intros st H; [done|].
  rewrite run_cons. by apply IH, provider_vars_ok_step.
Qed.

(** Without an NM1 for the pay-to provider its dict stays empty. *)
Lemma pay_to_stays_empty_step st seg :
  names_entity PayToProvider seg = false ->
  provider_vars_ok st ->
  current_entity st <> Some PayToProvider -> pay_to_dict st = empty_provider ->
  current_entity (step st seg) <> Some PayToProvider
  /\ pay_to_dict (step st seg) = empty_provider.
Proof.
  intros Hseg (Hb & Hp & b & p & Hprov) He. unfold pay_to_dict.
  rewrite Hp, Hprov. cbn. intros ->.
  destruct seg as [seg_id elements]. unfold names_entity in Hseg. cbn in Hseg.
  unfold step.
  destruct (classify seg_id); try done.
  all: unfold on_ISA, on_ST, on_BHT, on_NM1, on_N3, on_N4, on_PER, on_SBR,
         on_DMG, on_CLM, on_HI, on_DTP, on_REF, on_LX, on_SV1, name_provider,
         alloc.
  all: cbn; step_cases; cbn; rewrite ?Hb, ?Hp, ?Hprov; cbn; try done.
  all: try (split; [congruence|done]).
  all: try (exfalso; by apply bool_decide_eq_false in Hseg).
Qed.

Lemma pay_to_stays_empty_run st segs :
  Forall (fun seg => names_entity PayToProvider seg = false) segs ->
  provider_vars_ok st ->
  current_entity st <> Some PayToProvider -> pay_to_dict st = empty_provider ->
  provider_vars_ok (run st segs) /\ pay_to_dict (run st segs) = empty_provider.
Proof.
  intros H. revert st. induction H as [|seg segs Hseg _ IH]; intros st Hok He Hd;
    [done|].
  rewrite run_cons.
  destruct (pay_to_stays_empty_step st seg Hseg Hok He Hd) as [He' Hd'].
  apply IH; [by apply provider_vars_ok_step|done|done].
Qed.

(** C6 as amended.  When no NM1 segment names a pay-to provider, the
    variable [pay_to_provider] ends up on a new dict with the entries of
    the billing-provider dict: the two are equal, also with the address
    followed into the store, and a write to a key of one of the two dicts
    leaves the other as it was.  The address entry of both is one and the
    same address dict. *)
Theorem pay_to_defaults_to_shallow_copy segs :
  Forall (fun seg => names_entity PayToProvider seg = false) segs ->
  let st := finish (run initial segs) in
  pay_to_provider st <> billing_provider st
  /\ pay_to_dict st = billing_dict st
  /\ provider_view (addresses st) (pay_to_dict st)
     = provider_view (addresses st) (billing_dict st)
  /\ (forall f, mutate f (pay_to_provider st) (providers st) !!! billing_provider st
                = billing_dict st)
  /\ (forall f, mutate f (billing_provider st) (providers st) !!! pay_to_provider st
                = pay_to_dict st).
Proof.
  intros Hsegs.
  destruct (pay_to_stays_empty_run initial segs Hsegs provider_vars_ok_initial)
    as [(Hb & Hp & b & p & Hprov) Hd]; [done|done|].
  unfold pay_to_dict in Hd. rewrite Hp, Hprov in Hd. cbn in Hd. subst p.
  cbn zeta. unfold finish, default_pay_to, commit_open, copy_provider, alloc,
    pay_to_dict, billing_dict, mutate.
  destruct (current_claim (run initial segs)); cbn; rewrite Hb, Hp, Hprov; cbn.
  all: rewrite !Hb; cbn; repeat split; done.
Qed.

Lemma pay_to_defaults_witness :
  let st := finish (run initial billing_only_stream) in
  pay_to_provider st <> billing_provider st
  /\ pay_to_dict st = billing_dict st
  /\ provider_view (addresses st) (pay_to_dict st)
     = provider_view (addresses st) (billing_dict st)
  /\ (forall f, mutate f (pay_to_provider st) (providers st) !!! billing_provider st
                = billing_dict st)
  /\ (forall f, mutate f (billing_provider st) (providers st) !!! pay_to_provider st
                = pay_to_dict st).
Proof.
  apply (pay_to_defaults_to_shallow_copy billing_only_stream).
  apply (bool_decide_unpack _). vm_compute. exact I.
Defined.

(** C6, counterexample.  After a file that names a billing provider with
    an address and no pay-to provider, a write to the city of the address
    reached through the pay-to-provider dict changes what the
    billing-provider dict shows. *)
Lemma nested_address_is_shared :
  let st := finish (run initial billing_only_stream) in
  Forall (fun seg => names_entity PayToProvider seg = false) billing_only_stream
  /\ exists l,
       prov_address (pay_to_dict st) = Some l
       /\ provider_view (mutate (set_city (txt "ELSEWHERE")) l (addresses st))
            (billing_dict st)
          <> provider_view (addresses st) (billing_dict st).
Proof.
  split.
  - apply (bool_decide_unpack _). vm_compute. exact I.
  - exists 1. split; [reflexivity|]. vm_compute. discriminate.
Qed.

(** ** The address buffer *)

Lemma temp_ok_initial : temp_ok initial.
Proof. intros e l. cbn. by rewrite lookup_empty. Qed.

Lemma temp_ok_step st seg : temp_ok st -> temp_ok (step st seg).
Proof.
  intros Hok. destruct seg as [seg_id elements]. unfold temp_ok, step.
  destruct (classify seg_id); try done.
  all: unfold on_ISA, on_ST, on_BHT, on_NM1, on_N3, on_N4, on_PER, on_SBR,
         on_DMG, on_CLM, on_HI, on_DTP, on_REF, on_LX, on_SV1, name_provider,
         alloc.
  all: cbn; step_cases; cbn; try done.
  all: intros k a'; rewrite ?length_app, ?length_alter; cbn.
  all: try (intros Hk; apply Hok in Hk; lia).
  rewrite lookup_insert_Some. intros [[_ <-]|[_ Hk]]; [lia|].
  apply Hok in Hk. lia.
Qed.

Lemma temp_ok_run st segs : temp_ok st -> temp_ok (run st segs).
Proof.
  revert st. induction segs as [|seg segs IH]; intros st H; [done|].
  rewrite run_cons. by apply IH, temp_ok_step.
Qed.

Lemma addresses_on_N4 elements st addr :
  temp_addresses st !! current_entity st = Some addr ->
  addresses (on_N4 elements st)
  = alter (complete_address elements) addr (addresses st).
Proof.
  intros H. unfold on_N4. rewrite H. cbn. step_cases; done.
Qed.

(** C7 as amended.  An N4 segment met while the buffer has an address for
    the current entity completes that address in place with city, state
    and zip.  The address becomes the one of the billing provider, of the
    pay-to provider or of the subscriber when that is the current entity,
    and the one of the service facility of the open claim when the
    current entity is the service facility and the open claim has one.
    For the submitter, the receiver, the payer and the rendering provider
    it is stored nowhere: nothing but the store changes.  Without a
    buffered address for the current entity the segment changes nothing. *)
Theorem n4_commits_buffered_address segs elements :
  let st := run initial segs in
  let st' := step st (txt "N4", elements) in
  match temp_addresses st !! current_entity st with
  | None => st' = st
  | Some addr =>
      (exists d, addresses st !! addr = Some d
                 /\ addresses st' !! addr = Some (complete_address elements d))
      /\ (forall e, current_entity st = Some e ->
            match e with
            | BillingProvider | PayToProvider | Subscriber =>
                party_address st' e = Some addr
            | ServiceFacility =>
                match current_claim st ≫= serviceFacility with
                | Some _ => party_address st' e = Some addr
                | None => outside_buffer st' = outside_buffer st
                end
            | Submitter | Receiver | Payer | RenderingProvider =>
                outside_buffer st' = outside_buffer st
            end)
      /\ (current_entity st = None -> outside_buffer st' = outside_buffer st)
  end.
Proof.
  intros st st'.
  assert (provider_vars_ok st) as (Hb & Hp & b & p & Hprov)
    by apply provider_vars_ok_run, provider_vars_ok_initial.
  assert (temp_ok st) as Hok by apply temp_ok_run, temp_ok_initial.
  assert (st' = on_N4 elements st) as -> by done.
  destruct (temp_addresses st !! current_entity st) as [addr|] eqn:Hbuf.
  - split; [|split].
    + destruct (lookup_lt_is_Some_2 (addresses st) addr) as [d Hd];
        [by eapply Hok|].
      exists d. split; [done|].
      rewrite (addresses_on_N4 _ _ _ Hbuf), list_lookup_alter.
      rewrite decide_True by done. by rewrite Hd.
    + intros e He. unfold on_N4, party_address, billing_dict, pay_to_dict,
        outside_buffer. rewrite Hbuf. cbn. rewrite He.
      destruct e; cbn; rewrite ?Hb, ?Hp, ?Hprov, ?He; try done.
      destruct (current_claim st) as [c|] eqn:Hc; cbn; rewrite ?Hc; cbn.
      * destruct (serviceFacility c); cbn;
          by rewrite ?He, ?Hc, ?Hb, ?Hp, ?Hprov.
      * by rewrite ?He, ?Hc, ?Hb, ?Hp, ?Hprov.
    + intros He. unfold on_N4, outside_buffer. rewrite Hbuf. cbn.
      rewrite He. cbn. by rewrite ?He.
  - unfold on_N4. by rewrite Hbuf.
Qed.

Lemma n4_commits_witness :
  let st := run initial facility_stream in
  let st' := step st (txt "N4", map txt ["N4"; "TOWN"; "CA"; "90001"]%string) in
  (exists d, addresses st !! 1 = Some d
             /\ addresses st' !! 1
                = Some (complete_address
                          (map txt ["N4"; "TOWN"; "CA"; "90001"]%string) d))
  /\ party_address st' ServiceFacility = Some 1.
Proof.
  intros st st'.
  pose proof (n4_commits_buffered_address facility_stream
                (map txt ["N4"; "TOWN"; "CA"; "90001"]%string)) as H.
  cbv zeta in H.
  set (buffered := temp_addresses _ !! _) in H.
  assert (buffered = Some 1) as Hbuf by (vm_compute; reflexivity).
  clearbody buffered. subst buffered.
  destruct H as (Hd & He & _). split; [exact Hd|].
  assert (current_entity (run initial facility_stream) = Some ServiceFacility)
    as Hcur by (vm_compute; reflexivity).
  specialize (He ServiceFacility Hcur). cbv beta iota in He.
  set (facility := current_claim _ ≫= serviceFacility) in He.
  assert (facility = Some (mkFacility (txt "WARD") (txt "55") 0)) as Hfac
    by (vm_compute; reflexivity).
  clearbody facility. subst facility. exact He.
Defined.

(** C7, counterexample.  After an NM1 for the submitter and an N3, the
    buffer has an address for the current entity, the submitter; the N4
    that follows completes it, yet the submitter has no address and
    nothing outside the store has changed. *)
Lemma submitter_address_is_not_committed :
  let st := run initial submitter_stream in
  let st' := step st (txt "N4", map txt ["N4"; "TOWN"; "CA"; "90001"]%string) in
  current_entity st = Some Submitter
  /\ temp_addresses st !! current_entity st = Some 0
  /\ addresses st' !! 0
     = Some (mkAddress (Some (txt "1 MAIN ST")) (Some (txt "TOWN"))
               (Some (txt "CA")) (Some (txt "90001")))
  /\ party_address st' Submitter = None
  /\ submitter st' = mkSubmitter (Some (txt "CLEARING HOUSE")) (Some (txt "999")) None
  /\ outside_buffer st' = outside_buffer st.
Proof. by vm_compute. Qed.

(** ** Addresses before any entity is named *)

Lemma address_refs_nil st :
  address_refs st = []
  <-> omap prov_address (providers st) = []
      /\ sbr_address (subscriber st) = None
      /\ current_claim st ≫= facility_address = None
      /\ omap facility_address (claims_data st) = [].
Proof.
  unfold address_refs. split.
  - intros H. apply app_eq_nil in H as [H1 H].
    apply app_eq_nil in H as [H2 H]. apply app_eq_nil in H as [H3 H4].
    repeat split; try done.
    + by destruct (sbr_address (subscriber st)).
    + by destruct (current_claim st ≫= facility_address).
  - intros (-> & -> & -> & ->). done.
Qed.

Lemma no_entity_step st seg :
  names_any_entity seg = false ->
  current_entity st = None -> address_refs st = [] ->
  current_entity (step st seg) = None /\ address_refs (step st seg) = [].
Proof.
  intros Hseg He Hrefs. rewrite address_refs_nil.
  apply address_refs_nil in Hrefs as (Hp & Hs & Hc & Hd).
  destruct seg as [seg_id elements]. unfold names_any_entity in Hseg.
  cbn [fst snd] in Hseg. unfold step.
  destruct (classify seg_id); try done.
  all: unfold on_ISA, on_ST, on_BHT, on_NM1, on_N3, on_N4, on_PER, on_SBR,
         on_DMG, on_CLM, on_HI, on_DTP, on_REF, on_LX, on_SV1, name_provider,
         alloc.
  all: try (apply bool_decide_eq_false in Hseg;
            destruct (entity_of_code (clean_value (el elements 1))) eqn:Hcode;
            [exfalso; by apply Hseg|]).
  all: cbn; rewrite ?He; cbn.
  all: destruct (current_claim st) as [c|] eqn:Hcur; cbn in *.
  all: step_cases; cbn; rewrite ?omap_app, ?Hd, ?Hp; cbn; rewrite ?Hc; try done.
  all: rewrite ?Hcur; cbn; rewrite ?Hc; try done.
Qed.

Lemma no_entity_run segs :
  Forall (fun seg => names_any_entity seg = false) segs ->
  current_entity (run initial segs) = None
  /\ address_refs (run initial segs) = [].
Proof.
  induction segs as [|seg segs IH] using rev_ind; intros H; [done|].
  apply Forall_app in H as [H Hseg]. apply Forall_inv in Hseg.
  rewrite run_snoc. destruct (IH H) as [He Hrefs].
  apply no_entity_step; [exact Hseg | exact He | exact Hrefs].
Qed.

Lemma elem_of_omap_alter {A B} (f : A -> option B) (g : A -> A) i (l : list A) x :
  x ∈ omap f (alter g i l) ->
  x ∈ omap f l \/ exists y, l !! i = Some y /\ f (g y) = Some x.
Proof.
  revert i. induction l as [|a l IH]; intros i;
    [cbn; intros H; by apply elem_of_nil in H|].
  destruct i as [|i]; cbn.
  - destruct (f (g a)) eqn:Hg.
    + intros H. apply elem_of_cons in H as [->|H]; [right; by exists a|].
      left. destruct (f a); [by apply list_elem_of_further|done].
    + intros H. left. destruct (f a); [by apply list_elem_of_further|done].
  - destruct (f a) eqn:Ha.
    + intros H. apply elem_of_cons in H as [->|H]; [left; apply list_elem_of_here|].
      apply IH in H as [H|H]; [left; by apply list_elem_of_further|by right].
    + intros H. apply IH in H as [H|H]; [by left|by right].
Qed.

Lemma option_list_elem_of {A} (o : option A) x : x ∈ option_list o <-> o = Some x.
Proof.
  destruct o; cbn; [|split; [intros H; by apply elem_of_nil in H|done]].
  rewrite list_elem_of_singleton. split; congruence.
Qed.

Lemma address_refs_step st seg l :
  l ∈ address_refs (step st seg) ->
  l ∈ address_refs st \/ l = length (addresses st)
  \/ exists e, temp_addresses st !! Some e = Some l.
Proof.
  destruct seg as [seg_id elements]. unfold step, address_refs.
  destruct (current_claim st) as [c|] eqn:Hcur;
    destruct (current_entity st) as [e|] eqn:He;
    destruct (temp_addresses st !! current_entity st) as [a|] eqn:Hbuf;
    rewrite ?He in Hbuf.
  all: destruct (classify seg_id); try (by left).
  all: unfold on_ISA, on_ST, on_BHT, on_NM1, on_N3, on_N4, on_PER, on_SBR,
         on_DMG, on_CLM, on_HI, on_DTP, on_REF, on_LX, on_SV1, name_provider,
         alloc.
  all: cbn; rewrite ?Hcur, ?He, ?Hbuf; cbn; step_cases; cbn;
         rewrite ?Hcur, ?He, ?Hbuf; cbn; try (by left).
  all: rewrite ?omap_app; cbn.
  all: rewrite ?elem_of_app, ?elem_of_cons, ?option_list_elem_of.
  all: intros H.
  all: repeat match goal with
         | H : _ \/ _ |- _ => destruct H as [H|H]
         | H : _ ∈ omap _ (alter _ _ _) |- _ =>
             apply elem_of_omap_alter in H as [H|(y & _ & H)]
         | H : _ ∈ _ ++ _ |- _ => rewrite elem_of_app in H
         | H : _ ∈ _ :: _ |- _ => rewrite elem_of_cons in H
         | H : _ ∈ option_list _ |- _ => rewrite option_list_elem_of in H
         | H : _ ∈ match ?o with Some y => [y] | None => [] end |- _ =>
             change (match o with Some y => [y] | None => [] end)
               with (option_list o) in H
         | H : _ ∈ [] |- _ => by apply elem_of_nil in H
         end.
  all: try (left; rewrite ?elem_of_app, ?option_list_elem_of; by eauto 10).
  all: cbn in *; simplify_eq.
  all: try (right; left; done).
  all: try (right; right; by eexists).
Qed.

Lemma temp_addresses_step st seg k l :
  temp_addresses (step st seg) !! k = Some l ->
  temp_addresses st !! k = Some l
  \/ (k = current_entity st /\ l = length (addresses st)).
Proof.
  destruct seg as [seg_id elements]. unfold step.
  destruct (classify seg_id); try (by left).
  all: unfold on_ISA, on_ST, on_BHT, on_NM1, on_N3, on_N4, on_PER, on_SBR,
         on_DMG, on_CLM, on_HI, on_DTP, on_REF, on_LX, on_SV1, name_provider,
         alloc.
  all: cbn; step_cases; cbn; try (by left).
  rewrite lookup_insert_Some. intros [[<- <-]|[_ H]]; [by right|by left].
Qed.

Lemma addresses_length_step st seg :
  length (addresses st) <= length (addresses (step st seg)).
Proof.
  destruct seg as [seg_id elements]. unfold step.
  destruct (classify seg_id); try done.
  all: unfold on_ISA, on_ST, on_BHT, on_NM1, on_N3, on_N4, on_PER, on_SBR,
         on_DMG, on_CLM, on_HI, on_DTP, on_REF, on_LX, on_SV1, name_provider,
         alloc.
  all: cbn; step_cases; cbn; rewrite ?length_app, ?length_alter; cbn; lia.
Qed.

Lemma early_dicts_unused_step n st seg :
  early_dicts_unused n st -> early_dicts_unused n (step st seg).
Proof.
  intros (Hlen & Hrefs & Htemp).
  pose proof (addresses_length_step st seg) as Hgrow.
  split; [lia|]. split.
  - intros l Hl. apply address_refs_step in Hl as [Hl|[->|[e Hl]]];
      [by apply Hrefs|lia|by eapply Htemp].
  - intros e l Hl. apply temp_addresses_step in Hl as [Hl|[_ ->]];
      [by eapply Htemp|lia].
Qed.

Lemma early_dicts_unused_run n st segs :
  early_dicts_unused n st -> early_dicts_unused n (run st segs).
Proof.
  revert st. induction segs as [|seg segs IH]; intros st H; [done|].
  rewrite run_cons. by apply IH, early_dicts_unused_step.
Qed.

Lemma elem_of_omap_total {A B} `{Inhabited A} (f : A -> option B) (h : list A) i x :
  f inhabitant = None -> f (h !!! i) = Some x -> x ∈ omap f h.
Proof.
  intros Hdef Hy. destruct (h !! i) as [a|] eqn:Ha.
  - rewrite (list_lookup_total_correct _ _ _ Ha) in Hy.
    apply list_elem_of_omap. exists a. split; [|done].
    by eapply list_elem_of_lookup_2.
  - rewrite list_lookup_total_alt, Ha in Hy. cbn in Hy. congruence.
Qed.

Lemma address_refs_finish st l :
  l ∈ address_refs (finish st) -> l ∈ address_refs st.
Proof.
  unfold finish, default_pay_to, commit_open, copy_provider, alloc, address_refs.
  destruct (current_claim st) as [c|] eqn:Hc; cbn; rewrite ?Hc;
    destruct (falsy _); cbn; rewrite ?Hc; cbn; rewrite ?omap_app; cbn.
  all: rewrite ?elem_of_app, ?option_list_elem_of.
  all: intros H.
  all: repeat match goal with
         | H : _ \/ _ |- _ => destruct H as [H|H]
         | H : prov_address (_ !!! _) = Some _ |- _ =>
             apply elem_of_omap_total in H; [|done]
         | H : _ ∈ _ ++ _ |- _ => rewrite elem_of_app in H
         | H : _ ∈ option_list _ |- _ => rewrite option_list_elem_of in H
         | H : _ ∈ match ?o with Some y => [y] | None => [] end |- _ =>
             change (match o with Some y => [y] | None => [] end)
               with (option_list o) in H
         | H : _ ∈ [] |- _ => by apply elem_of_nil in H
         end.
  all: cbn in *; by eauto 10.
Qed.

Lemma no_entity_temp_run segs e :
  Forall (fun seg => names_any_entity seg = false) segs ->
  temp_addresses (run initial segs) !! Some e = None.
Proof.
  induction segs as [|seg segs IH] using rev_ind; intros H; [done|].
  apply Forall_app in H as [H _]. rewrite run_snoc.
  destruct (temp_addresses (step (run initial segs) seg) !! Some e) as [l|] eqn:Hl;
    [|done].
  apply temp_addresses_step in Hl as [Hl|[He _]].
  - specialize (IH H). unfold loc in *. congruence.
  - destruct (no_entity_run segs H) as [Hnone _]. congruence.
Qed.

(** C9.  An N3 or N4 segment met before any NM1 segment with a known
    qualifier changes nothing but the buffer and the store of address
    dicts: the transaction, every party and every claim stay as they were,
    and none of them refers to an address dict.  The street of the N3 is
    kept in a new dict under the key [None] of the buffer.  That dict, like
    every address dict buffered so far, is discarded for good: whatever
    segments follow, no party and no claim comes to refer to it, neither
    during the loop nor after its final steps.  (The handlers are total
    functions: no branch of the loop can raise.) *)
Theorem early_address_is_discarded pre seg :
  Forall (fun s => names_any_entity s = false) pre ->
  classify (fst seg) = N3 \/ classify (fst seg) = N4 ->
  let st := run initial pre in
  let st' := step st seg in
  outside_buffer st' = outside_buffer st
  /\ address_refs st' = []
  /\ (classify (fst seg) = N3 ->
      exists l, temp_addresses st' !! None = Some l
                /\ addresses st' !! l
                   = Some (mkAddress (Some (clean_value (el (snd seg) 1)))
                             None None None)
                /\ forall post,
                     l ∉ address_refs (run st' post)
                     /\ l ∉ address_refs (finish (run st' post)))
  /\ (forall post l,
        l < length (addresses st') ->
        l ∉ address_refs (run st' post)
        /\ l ∉ address_refs (finish (run st' post))).
Proof.
  intros Hpre Hkind st st'.
  destruct (no_entity_run pre Hpre) as [He Hrefs]. fold st in He, Hrefs.
  assert (names_any_entity seg = false) as Hseg.
  { unfold names_any_entity. by destruct Hkind as [-> | ->]. }
  destruct (no_entity_step st seg Hseg He Hrefs) as [_ Hrefs'].
  assert (forall post l,
            l < length (addresses st') ->
            l ∉ address_refs (run st' post)
            /\ l ∉ address_refs (finish (run st' post))) as Hlater.
  { intros post l Hl.
    assert (early_dicts_unused (length (addresses st')) st') as Hinv.
    { split; [done|]. split.
      - intros x Hx. fold st' in Hrefs'. rewrite Hrefs' in Hx.
        by apply elem_of_nil in Hx.
      - intros e x Hx. exfalso. apply temp_addresses_step in Hx as [Hx|[Hx _]].
        + pose proof (no_entity_temp_run pre e Hpre) as Hnone.
          subst st. unfold loc in *. congruence.
        + congruence. }
    apply (early_dicts_unused_run _ _ post) in Hinv as (_ & Hr & _).
    split.
    - intros Hin. apply Hr in Hin. lia.
    - intros Hin. apply address_refs_finish, Hr in Hin. lia. }
  split; [|split; [done|split; [|done]]].
  - subst st'. destruct seg as [seg_id elements]. cbn [fst] in Hkind.
    unfold step, outside_buffer.
    destruct Hkind as [-> | ->]; unfold on_N3, on_N4, alloc; cbn.
    + done.
    + rewrite He. destruct (temp_addresses st !! None); cbn; by rewrite ?He.
  - intros HN3.
    assert (temp_addresses st' !! None = Some (length (addresses st))
            /\ addresses st' !! length (addresses st)
               = Some (mkAddress (Some (clean_value (el (snd seg) 1)))
                         None None None)
            /\ length (addresses st) < length (addresses st')) as (Ht & Ha & Hlt).
    { subst st'. destruct seg as [seg_id elements]. cbn [fst snd] in *.
      unfold step. rewrite HN3. unfold on_N3, alloc. cbn. rewrite He.
      split; [apply lookup_insert_eq|]. rewrite length_app. cbn.
      split; [|lia]. by rewrite lookup_app_r, Nat.sub_diag. }
    exists (length (addresses st)). split; [done|]. split; [done|].
    intros post. by apply Hlater.
Qed.

Lemma early_address_witness :
  let st := run initial (take 2 early_address_stream) in
  let st' := step st (seg "N3*1 MAIN ST") in
  outside_buffer st' = outside_buffer st
  /\ address_refs st' = []
  /\ (classify (fst (seg "N3*1 MAIN ST")) = N3 ->
      exists l, temp_addresses st' !! None = Some l
                /\ addresses st' !! l
                   = Some (mkAddress
                             (Some (clean_value (el (snd (seg "N3*1 MAIN ST")) 1)))
                             None None None)
                /\ forall post,
                     l ∉ address_refs (run st' post)
                     /\ l ∉ address_refs (finish (run st' post)))
  /\ (forall post l,
        l < length (addresses st') ->
        l ∉ address_refs (run st' post)
        /\ l ∉ address_refs (finish (run st' post))).
Proof.
  apply (early_address_is_discarded (take 2 early_address_stream)
           (seg "N3*1 MAIN ST")).
  - apply (bool_decide_unpack _). vm_compute. exact I.
  - left. reflexivity.
Defined.

(** * Further properties of the code *)

(** ** Claims and claim headers *)

Lemma all_claims_step st seg :
  map claim_id (all_claims (step st seg))
  = map claim_id (all_claims st) ++ clm_ids [seg].
Proof.
  unfold all_claims, clm_ids. cbn [List.filter].
  destruct (is_CLM seg) eqn:Hseg.
  - destruct (step_CLM st seg Hseg) as [-> ->].
    by rewrite !map_app.
  - destruct (step_keeps_claims st seg Hseg) as [-> Hc]. cbn [map].
    rewrite app_nil_r. destruct (current_claim st) as [c|].
    + destruct Hc as (c' & -> & Hid & _). rewrite !map_app. cbn. by rewrite Hid.
    + by rewrite Hc.
Qed.

Lemma clm_ids_app a b : clm_ids (a ++ b) = clm_ids a ++ clm_ids b.
Proof. unfold clm_ids. by rewrite List.filter_app, map_app. Qed.

Lemma all_claims_run st segs :
  map claim_id (all_claims (run st segs))
  = map claim_id (all_claims st) ++ clm_ids segs.
Proof.
  revert st. induction segs as [|seg segs IH]; intros st.
  - by rewrite app_nil_r.
  - rewrite run_cons, IH, all_claims_step, <- app_assoc.
    by rewrite <- clm_ids_app.
Qed.

Lemma claim_ids_finish segs :
  map claim_id (claims_data (finish (run initial segs))) = clm_ids segs.
Proof.
  rewrite claims_data_finish. fold (all_claims (run initial segs)).
  by rewrite all_claims_run.
Qed.

(** X1.  The claims committed at the end of the loop are as many as the
    CLM segments of the stream, and their identifiers are the cleaned
    second fields of those segments, in stream order. *)
Theorem one_claim_per_CLM segs :
  map claim_id (claims_data (finish (run initial segs))) = clm_ids segs.
Proof. apply claim_ids_finish. Qed.

(** X2.  The parser gives the section list of the claim itself when the
    stream has exactly one CLM segment, and a list of section lists, one
    per CLM segment and in stream order, when it has several; either way
    the claim sections carry the identifiers of the CLM segments. *)
Theorem result_shape segments sep term p :
  parse_x12_for_viewer (inr (segments, sep, term)) = inr p ->
  map (fun s => sum_id (sec_claim s)) (section_lists (out p)) = clm_ids segments
  /\ (length (clm_ids segments) = 1 <-> exists s, out p = OneClaim s)
  /\ (2 <= length (clm_ids segments) <-> exists l, out p = ManyClaims l).
Proof.
  unfold parse_x12_for_viewer.
  pose proof (claim_ids_finish segments) as Hids.
  destruct (claims_data (finish (run initial segments))) as [|c [|c' cs]] eqn:Hcd;
    [done| |]; intros [= <-]; cbn [out section_lists map] in *.
  - rewrite <- Hids. split; [done|]. split.
    + split; [by eexists|done].
    + split; [cbn; lia|by intros [l ?]].
  - rewrite <- Hids. split; [by rewrite map_map|]. split.
    + split; [done|by intros [s ?]].
    + split; [by eexists|cbn; lia].
Qed.

Lemma result_shape_witness :
  exists p,
    parse_x12_for_viewer (inr (two_claim_stream, "*"%char, "~"%char)) = inr p
    /\ map (fun s => sum_id (sec_claim s)) (section_lists (out p))
       = [txt "A1"; txt "A2"]
    /\ exists l, out p = ManyClaims l.
Proof.
  destruct (parse_x12_for_viewer (inr (two_claim_stream, "*"%char, "~"%char)))
    as [e|p] eqn:Hp; [vm_compute in Hp; discriminate|].
  exists p. split; [reflexivity|].
  destruct (result_shape two_claim_stream "*"%char "~"%char p Hp)
    as (Hids & _ & Hmany).
  assert (clm_ids two_claim_stream = [txt "A1"; txt "A2"]) as E
    by (vm_compute; reflexivity).
  rewrite E in Hids, Hmany. split; [exact Hids|]. apply Hmany. cbn. lia.
Defined.

(** ** The value helpers *)

Lemma lstrip_suffix s :
  exists ws, s = ws ++ lstrip s /\ Forall (fun c => isspace c = true) ws.
Proof.
  induction s as [|c s (ws & IH & Hws)]; [by exists []|]. cbn.
  destruct (isspace c) eqn:Hc.
  - exists (c :: ws). split; [by rewrite IH at 1|by constructor].
  - by exists [].
Qed.

Lemma lstrip_head s c : head (lstrip s) = Some c -> isspace c = false.
Proof.
  induction s as [|x s IH]; [done|]. cbn.
  destruct (isspace x) eqn:Hx; [done|]. cbn. by intros [= <-].
Qed.

Lemma lstrip_id s :
  (forall c, head s = Some c -> isspace c = false) -> lstrip s = s.
Proof.
  destruct s as [|x s]; [done|]. intros H. cbn. by rewrite (H x).
Qed.

Lemma rstrip_prefix s :
  exists ws, s = rstrip s ++ ws /\ Forall (fun c => isspace c = true) ws.
Proof.
  destruct (lstrip_suffix (rev s)) as (ws & Heq & Hws).
  exists (rev ws). split; [|by apply Forall_rev].
  unfold rstrip. by rewrite <- rev_app_distr, <- Heq, rev_involutive.
Qed.

Lemma last_of_rev (l : str) : last (rev l) = head l.
Proof. destruct l; cbn; [done|by rewrite last_snoc]. Qed.

Lemma head_of_rev (l : str) : head (rev l) = last l.
Proof.
  induction l as [|x l _] using rev_ind; [done|].
  by rewrite rev_app_distr, last_snoc.
Qed.

Lemma rstrip_last s c : last (rstrip s) = Some c -> isspace c = false.
Proof. unfold rstrip. rewrite last_of_rev. apply lstrip_head. Qed.

Lemma rstrip_id s :
  (forall c, last s = Some c -> isspace c = false) -> rstrip s = s.
Proof.
  intros H. unfold rstrip. rewrite lstrip_id; [apply rev_involutive|].
  intros c Hc. apply H. by rewrite <- head_of_rev.
Qed.

Lemma rstrip_head s c : head (rstrip s) = Some c -> head s = Some c.
Proof.
  destruct (rstrip_prefix s) as (ws & Heq & _). intros H.
  rewrite Heq. by destruct (rstrip s).
Qed.

Lemma strip_head s c : head (strip s) = Some c -> isspace c = false.
Proof. intros H. apply rstrip_head in H. by eapply lstrip_head. Qed.

Lemma strip_last s c : last (strip s) = Some c -> isspace c = false.
Proof. apply rstrip_last. Qed.

Lemma strip_elem_of s c : c ∈ strip s -> c ∈ s.
Proof.
  intros H. destruct (lstrip_suffix s) as (ws & -> & _).
  destruct (rstrip_prefix (lstrip s)) as (ws' & Heq & _).
  apply elem_of_app. right. rewrite Heq. apply elem_of_app. by left.
Qed.

Lemma remove_chr_id c s : c ∉ s -> remove_chr c s = s.
Proof.
  intros H. unfold remove_chr. induction s as [|x s IH]; [done|].
  apply not_elem_of_cons in H as [Hx Hs].
  unfold str in *. rewrite filter_cons_True by done. by rewrite IH.
Qed.

(** X3.  A cleaned value holds no tilde and neither starts nor ends with
    a whitespace character, and cleaning it again changes nothing. *)
Theorem clean_value_is_clean value :
  "~"%char ∉ clean_value value
  /\ (forall c, head (clean_value value) = Some c -> isspace c = false)
  /\ (forall c, last (clean_value value) = Some c -> isspace c = false)
  /\ clean_value (clean_value value) = clean_value value.
Proof.
  assert ("~"%char ∉ clean_value value) as Htilde.
  { unfold clean_value. destruct (is_empty value); [apply not_elem_of_nil|].
    intros H. apply strip_elem_of in H. unfold remove_chr in H.
    by apply list_elem_of_filter in H as [? _]. }
  assert (forall c, head (clean_value value) = Some c -> isspace c = false)
    as Hhead.
  { unfold clean_value. destruct (is_empty value); [done|]. apply strip_head. }
  assert (forall c, last (clean_value value) = Some c -> isspace c = false)
    as Hlast.
  { unfold clean_value. destruct (is_empty value); [done|]. apply strip_last. }
  repeat split; try done.
  unfold clean_value at 1. destruct (is_empty (clean_value value)) eqn:He.
  - by destruct (clean_value value).
  - rewrite remove_chr_id by done. unfold strip.
    rewrite lstrip_id by done. by rewrite rstrip_id.
Qed.

Lemma clean_value_witness :
  "~"%char ∉ clean_value (txt " 12~3 ~")
  /\ clean_value (clean_value (txt " 12~3 ~")) = clean_value (txt " 12~3 ~").
Proof.
  destruct (clean_value_is_clean (txt " 12~3 ~")) as (Htilde & _ & _ & Hidem).
  split; [exact Htilde|exact Hidem].
Defined.

(** X4.  A date of eight characters, whatever they are, becomes the four
    first, a dash, the two next, a dash and the two last; a value of any
    other length comes back as it is; and a second pass changes nothing. *)
Theorem parse_date_shape date_str :
  (length date_str = 8 ->
   exists y m d,
     date_str = y ++ m ++ d
     /\ length y = 4 /\ length m = 2 /\ length d = 2
     /\ parse_date date_str = y ++ "-"%char :: m ++ "-"%char :: d)
  /\ (length date_str <> 8 -> parse_date date_str = date_str)
  /\ parse_date (parse_date date_str) = parse_date date_str.
Proof.
  split; [|split].
  - intros Hlen.
    do 9 (destruct date_str as [|? date_str]; try done).
    by eexists [_; _; _; _], [_; _], [_; _].
  - intros Hlen. unfold parse_date.
    apply Nat.eqb_neq in Hlen. rewrite Hlen. by rewrite orb_true_r.
  - destruct (decide (length date_str = 8)) as [Hlen|Hlen].
    + by do 9 (destruct date_str as [|? date_str]; try done).
    + unfold parse_date at 2. apply Nat.eqb_neq in Hlen as Hlen'.
      rewrite Hlen', orb_true_r. unfold parse_date.
      by rewrite Hlen', orb_true_r.
Qed.

Lemma parse_date_witness :
  exists y m d,
    txt "20230415" = y ++ m ++ d
    /\ length y = 4 /\ length m = 2 /\ length d = 2
    /\ parse_date (txt "20230415") = y ++ "-"%char :: m ++ "-"%char :: d.
Proof. apply (parse_date_shape (txt "20230415")). reflexivity. Defined.

(** X5.  A time of four characters or more becomes five characters: the
    two first, a colon and the two next; whatever follows the fourth
    character is dropped.  A shorter value comes back as it is. *)
Theorem parse_time_shape time_str :
  (4 <= length time_str ->
   length (parse_time time_str) = 5
   /\ parse_time time_str = parse_time (take 4 time_str)
   /\ exists h m, take 4 time_str = h ++ m /\ length h = 2 /\ length m = 2
                  /\ parse_time time_str = h ++ ":"%char :: m)
  /\ (length time_str < 4 -> parse_time time_str = time_str).
Proof.
  split.
  - intros Hlen.
    do 4 (destruct time_str as [|? time_str]; [cbn in Hlen; lia|]).
    repeat split. by eexists [_; _], [_; _].
  - intros Hlen. unfold parse_time. apply Nat.ltb_lt in Hlen.
    by rewrite Hlen, orb_true_r.
Qed.

Lemma parse_time_witness :
  length (parse_time (txt "143059")) = 5
  /\ parse_time (txt "143059") = parse_time (take 4 (txt "143059"))
  /\ exists h m, take 4 (txt "143059") = h ++ m /\ length h = 2 /\ length m = 2
                 /\ parse_time (txt "143059") = h ++ ":"%char :: m.
Proof. apply (parse_time_shape (txt "143059")). cbn. lia. Defined.

(** ** Segments and the open claim *)

Lemma claim_scoped_ignored st seg :
  current_claim st = None -> claim_scoped seg = true -> step st seg = st.
Proof.
  destruct seg as [seg_id elements]. unfold claim_scoped, step. cbn [fst].
  intros Hc. destruct (classify seg_id); try done; intros _.
  all: unfold on_HI, on_DTP, on_REF, on_LX, on_SV1; by rewrite Hc.
Qed.

Lemma run_without_claim_scoped st pre :
  current_claim st = None ->
  Forall (fun seg => is_CLM seg = false) pre ->
  run st pre = run st (List.filter (fun seg => negb (claim_scoped seg)) pre).
Proof.
  intros Hc H. revert st Hc. induction H as [|seg pre Hseg _ IH]; intros st Hc;
    [done|].
  cbn [List.filter]. destruct (claim_scoped seg) eqn:Hs; cbn [negb].
  - rewrite run_cons, claim_scoped_ignored by done. by apply IH.
  - rewrite !run_cons. apply IH.
    destruct (step_keeps_claims st seg Hseg) as [_ H']. by rewrite Hc in H'.
Qed.

(** X6.  The HI, DTP, REF, LX and SV1 segments that come before the first
    CLM segment have no effect: the loop ends in the same state with or
    without them. *)
Theorem claim_level_segments_before_first_CLM_are_ignored pre rest :
  Forall (fun seg => is_CLM seg = false) pre ->
  run initial (pre ++ rest)
  = run initial (List.filter (fun seg => negb (claim_scoped seg)) pre ++ rest).
Proof.
  intros H. rewrite !run_app. by rewrite <- run_without_claim_scoped.
Qed.

Lemma claim_level_segments_witness :
  run initial (take 3 two_claim_stream ++ drop 3 two_claim_stream)
  = run initial (List.filter (fun seg => negb (claim_scoped seg))
                   (take 3 two_claim_stream) ++ drop 3 two_claim_stream).
Proof.
  apply (claim_level_segments_before_first_CLM_are_ignored
           (take 3 two_claim_stream) (drop 3 two_claim_stream)).
  apply (bool_decide_unpack _). vm_compute. exact I.
Defined.

(** ** The current entity *)

Lemma current_entity_step st seg :
  current_entity (step st seg)
  = match named_entity seg with
    | Some e => Some e
    | None => current_entity st
    end.
Proof.
  destruct seg as [seg_id elements]. unfold named_entity, step. cbn [fst snd].
  destruct (classify seg_id); try done.
  all: unfold on_ISA, on_ST, on_BHT, on_NM1, on_N3, on_N4, on_PER, on_SBR,
         on_DMG, on_CLM, on_HI, on_DTP, on_REF, on_LX, on_SV1, name_provider,
         alloc.
  all: cbn; step_cases; done.
Qed.

(** X7.  At any point of the stream the current entity is the one named
    by the last NM1 segment with a known qualifier, however many segments,
    claim headers included, came since; it is [None] only as long as no
    such segment has come. *)
Theorem current_entity_is_last_named segs :
  current_entity (run initial segs) = last_named_entity segs.
Proof.
  induction segs as [|seg segs IH] using rev_ind; [done|].
  rewrite run_snoc, current_entity_step, IH. unfold last_named_entity.
  rewrite omap_app. cbn. destruct (named_entity seg); cbn.
  - by rewrite last_snoc.
  - by rewrite app_nil_r.
Qed.

(** ** The document payer *)





(** ** Diagnosis codes *)

Lemma clean_code_of_empty f : is_empty f = true -> clean_code f = [].
Proof. by destruct f. Qed.

Lemma codes_of_cons f fields :
  codes_of (f :: fields)
  = if is_empty (clean_code f) then codes_of fields
    else clean_code f :: codes_of fields.
Proof. unfold codes_of. cbn. by destruct (is_empty (clean_code f)). Qed.

Lemma hi_codes_later i fields d :
  2 <= i ->
  hi_codes i fields d = mkDiagnosis (primary d) (secondary d ++ codes_of fields).
Proof.
  revert i d. induction fields as [|f fields IH]; intros i d Hi.
  - cbn. rewrite app_nil_r. by destruct d.
  - cbn [hi_codes]. rewrite codes_of_cons, IH by lia.
    destruct (is_empty f) eqn:Hf.
    + by rewrite (clean_code_of_empty f Hf).
    + destruct (is_empty (clean_code f)); [done|].
      assert (i =? 1 = false) as -> by (apply Nat.eqb_neq; lia).
      cbn. by rewrite <- app_assoc.
Qed.

(** X9.  An HI segment met with an open claim sets the primary diagnosis
    to the code of its first field when that code is not empty, and adds
    the codes of its later fields that are not empty to the end of the
    secondary list, in order; it neither removes a secondary code nor
    touches the identifier or the service lines of the claim. *)
Theorem hi_sets_primary_and_appends_secondary st c elements :
  current_claim st = Some c ->
  exists c',
    current_claim (step st (txt "HI", elements)) = Some c'
    /\ primary (diagnosis c')
       = (if is_empty (clean_code (el elements 1)) then primary (diagnosis c)
          else clean_code (el elements 1))
    /\ secondary (diagnosis c')
       = secondary (diagnosis c) ++ codes_of (drop 2 elements)
    /\ claim_id c' = claim_id c
    /\ serviceLines c' = serviceLines c.
Proof.
  intros Hc. cbn [step]. change (classify (txt "HI")) with HI. cbv iota.
  unfold on_HI. rewrite Hc. eexists. split; [reflexivity|]. cbn.
  destruct elements as [|e0 [|e1 rest]]; cbn.
  - by rewrite app_nil_r.
  - by rewrite app_nil_r.
  - rewrite hi_codes_later by lia. unfold el. cbn.
    destruct (is_empty e1) eqn:He1.
    + by rewrite (clean_code_of_empty e1 He1).
    + by destruct (is_empty (clean_code e1)).
Qed.

Lemma hi_witness :
  exists c',
    current_claim (step (run initial one_line_stream)
                     (txt "HI", map txt ["HI"; "ABK:K0230"; ""; "ABF:J45"]%string))
    = Some c'
    /\ primary (diagnosis c') = txt "K0230"
    /\ secondary (diagnosis c') = [txt "J45"].
Proof.
  destruct (hi_sets_primary_and_appends_secondary (run initial one_line_stream) _
              (map txt ["HI"; "ABK:K0230"; ""; "ABF:J45"]%string) eq_refl)
    as (c' & Hc & Hp & Hs & _).
  exists c'. split; [exact Hc|]. split; [exact Hp|exact Hs].
Defined.

(** ** Place of service *)




(** ** The subscriber *)





(** ** A pay-to provider without a name *)

Lemma pay_to_name_step st seg :
  provider_vars_ok st ->
  prov_name (pay_to_dict (step st seg))
  = if names_entity PayToProvider seg then Some (clean_value (el (snd seg) 3))
    else prov_name (pay_to_dict st).
Proof.
  intros (Hb & Hp & b & p & Hprov). destruct seg as [seg_id elements].
  unfold names_entity, pay_to_dict, step. cbn [fst snd].
  destruct (classify seg_id); try done.
  all: unfold on_ISA, on_ST, on_BHT, on_NM1, on_N3, on_N4, on_PER, on_SBR,
         on_DMG, on_CLM, on_HI, on_DTP, on_REF, on_LX, on_SV1, name_provider,
         alloc.
  all: cbn; step_cases; cbn; rewrite ?Hb, ?Hp, ?Hprov; cbn; try done.
  all: try (by rewrite bool_decide_eq_true_2).
  all: rewrite bool_decide_eq_false_2; [done|congruence].
Qed.

Lemma pay_to_name_run segs :
  prov_name (pay_to_dict (run initial segs)) = last_pay_to_name segs.
Proof.
  induction segs as [|seg segs IH] using rev_ind; [done|].
  rewrite run_snoc, pay_to_name_step
    by apply provider_vars_ok_run, provider_vars_ok_initial.
  rewrite IH. unfold last_pay_to_name. rewrite List.filter_app. cbn.
  destruct (names_entity PayToProvider seg).
  - by rewrite last_snoc.
  - by rewrite app_nil_r.
Qed.

(** X12.  What the pay-to provider is at the end depends on the name of
    the last NM1 segment for a pay-to provider alone.  When there is none
    or its name is empty, the variable is rebound to a copy of the billing
    provider, and the identifier and address a nameless pay-to provider was
    given are dropped; otherwise the variable and its dict stay as the loop
    left them. *)
Theorem pay_to_kept_only_with_a_name segs :
  let st := run initial segs in
  (falsy (last_pay_to_name segs) = true ->
   pay_to_provider (finish st) <> pay_to_provider st
   /\ pay_to_dict (finish st) = billing_dict st)
  /\ (falsy (last_pay_to_name segs) = false ->
      pay_to_provider (finish st) = pay_to_provider st
      /\ pay_to_dict (finish st) = pay_to_dict st
      /\ prov_name (pay_to_dict (finish st)) = last_pay_to_name segs).
Proof.
  intros st. pose proof (pay_to_name_run segs) as Hname. fold st in Hname.
  assert (provider_vars_ok st) as (Hb & Hp & b & p & Hprov)
    by apply provider_vars_ok_run, provider_vars_ok_initial.
  rewrite <- Hname. unfold finish, default_pay_to, commit_open, copy_provider,
    alloc, pay_to_dict, billing_dict.
  split; intros Hf.
  - destruct (current_claim st); cbn; unfold pay_to_dict in Hf; rewrite Hf; cbn;
      rewrite Hb, Hp, Hprov; cbn; by rewrite ?Hb.
  - destruct (current_claim st); cbn; unfold pay_to_dict in Hf; by rewrite Hf.
Qed.

Lemma pay_to_kept_witness :
  let st := run initial unnamed_pay_to_stream in
  pay_to_provider (finish st) <> pay_to_provider st
  /\ pay_to_dict (finish st) = billing_dict st.
Proof.
  apply (pay_to_kept_only_with_a_name unnamed_pay_to_stream). reflexivity.
Defined.

(** ** An N4 segment without its N3 *)

(** X13.  An N4 segment completes the address dict the buffer holds for
    the current entity even when a committed claim already refers to that
    dict, as happens when an NM1 is followed by an N4 with no N3 of its
    own: the committed claim stays in the list and from then on shows the
    city, state and zip of the later segment. *)
Theorem later_n4_rewrites_committed_address st elements addr d c0 :
  temp_addresses st !! current_entity st = Some addr ->
  addresses st !! addr = Some d ->
  c0 ∈ claims_data st ->
  facility_address c0 = Some addr ->
  let st' := step st (txt "N4", elements) in
  c0 ∈ claims_data st'
  /\ addresses st' !! addr = Some (complete_address elements d).
Proof.
  intros Hbuf Hd Hc0 Hfac st'.
  assert (st' = on_N4 elements st) as -> by done. split.
  - unfold on_N4. rewrite Hbuf. cbn. step_cases; done.
  - rewrite (addresses_on_N4 _ _ _ Hbuf), list_lookup_alter.
    rewrite decide_True by done. unfold loc in *. by rewrite Hd.
Qed.

Lemma later_n4_witness :
  let st := run initial stale_buffer_stream in
  let elements := map txt ["N4"; "ELSEWHERE"; "NY"; "10001"]%string in
  exists c0 d,
    c0 ∈ claims_data (step st (txt "N4", elements))
    /\ claim_id c0 = txt "A1"
    /\ facility_address c0 = Some 1
    /\ addresses st !! 1 = Some d
    /\ addr_city d = Some (txt "TOWN")
    /\ addresses (step st (txt "N4", elements)) !! 1
       = Some (complete_address elements d).
Proof.
  intros st elements.
  destruct (claims_data st) as [|c0 cs] eqn:Hcd; [vm_compute in Hcd; discriminate|].
  destruct (addresses st !! 1) as [d|] eqn:Hd; [|vm_compute in Hd; discriminate].
  assert (claim_id c0 = txt "A1") as Hid
    by (vm_compute in Hcd; injection Hcd as <- _; reflexivity).
  assert (facility_address c0 = Some 1) as Hfac
    by (vm_compute in Hcd; injection Hcd as <- _; reflexivity).
  assert (addr_city d = Some (txt "TOWN")) as Hcity
    by (vm_compute in Hd; injection Hd as <-; reflexivity).
  assert (c0 ∈ claims_data st) as Hin by (rewrite Hcd; apply list_elem_of_here).
  assert (temp_addresses st !! current_entity st = Some 1) as Hbuf
    by (vm_compute; reflexivity).
  destruct (later_n4_rewrites_committed_address st elements 1 d c0 Hbuf Hd Hin Hfac)
    as [Hin' Haddr].
  exists c0, d. repeat split; done.
Defined.

(** ** The start of the data *)

Lemma isa_here_marker s sep : isa_here s = Some sep <-> isa_marker s 0 sep.
Proof.
  split.
  - intros H. pose proof (isa_here_not_newline s sep H) as Hnl.
    destruct s as [|a [|b [|c [|e t]]]]; try done. cbn in H.
    destruct (matches_ci "I" "i" a) eqn:Ha; [|done].
    destruct (matches_ci "S" "s" b) eqn:Hb; [|done].
    destruct (matches_ci "A" "a" c) eqn:Hc; [|done].
    destruct (chr_eqb e newline); [done|]. cbn in H. injection H as ->.
    by exists [], a, b, c, t.
  - intros (pre & a & b & c & post & -> & Hlen & Ha & Hb & Hc & Hnl).
    destruct pre; [|done]. cbn. rewrite Ha, Hb, Hc. cbn.
    apply chr_eqb_neq in Hnl. by rewrite Hnl.
Qed.

Lemma isa_marker_cons x t i sep :
  isa_marker (x :: t) (S i) sep <-> isa_marker t i sep.
Proof.
  split.
  - intros (pre & a & b & c & post & Heq & Hlen & H).
    destruct pre as [|x' pre]; [done|]. injection Heq as <- ->.
    exists pre, a, b, c, post. split; [done|]. split; [by injection Hlen|done].
  - intros (pre & a & b & c & post & -> & Hlen & H).
    exists (x :: pre), a, b, c, post. split; [done|].
    split; [cbn; by rewrite Hlen|done].
Qed.

Lemma isa_marker_nil i sep : ~ isa_marker [] i sep.
Proof. intros (pre & a & b & c & post & Heq & _). by destruct pre. Qed.

Lemma isa_marker_unique s i e e' :
  isa_marker s i e -> isa_marker s i e' -> e = e'.
Proof.
  revert s. induction i as [|i IH]; intros s H H'.
  - apply isa_here_marker in H, H'. congruence.
  - destruct s as [|x t]; [by apply isa_marker_nil in H|].
    apply isa_marker_cons in H, H'. by eapply IH.
Qed.

Lemma isa_search_from_spec pos s :
  match isa_search_from pos s with
  | Some (k, sep) =>
      exists i, k = pos + i /\ isa_marker s i sep
                /\ forall j e, j < i -> ~ isa_marker s j e
  | None => forall i e, ~ isa_marker s i e
  end.
Proof.
  revert pos. induction s as [|x t IH]; intros pos.
  - intros i e. apply isa_marker_nil.
  - cbn [isa_search_from]. destruct (isa_here (x :: t)) as [e0|] eqn:Hh.
    + exists 0. split; [lia|]. split; [by apply isa_here_marker|]. intros; lia.
    + specialize (IH (S pos)).
      destruct (isa_search_from (S pos) t) as [[k sep]|].
      * destruct IH as (i & -> & Hm & Hleft). exists (S i).
        split; [lia|]. split; [by apply isa_marker_cons|].
        intros [|j] e Hj.
        -- rewrite <- isa_here_marker. congruence.
        -- rewrite isa_marker_cons. apply Hleft. lia.
      * intros [|i] e.
        -- rewrite <- isa_here_marker. congruence.
        -- rewrite isa_marker_cons. apply IH.
Qed.

(** X14.  The search for the interchange header returns the offset of the
    leftmost place where the letters I, S, A, in upper or lower case, are
    followed by a character other than a newline, together with that
    character, wherever in the text that place is; it finds nothing only
    when the text has no such place. *)
Theorem isa_search_finds_leftmost_marker content :
  (forall k sep,
     isa_search content = Some (k, sep)
     <-> isa_marker content k sep /\ forall j e, j < k -> ~ isa_marker content j e)
  /\ (isa_search content = None <-> forall i e, ~ isa_marker content i e).
Proof.
  unfold isa_search. pose proof (isa_search_from_spec 0 content) as H.
  destruct (isa_search_from 0 content) as [[k0 sep0]|].
  - destruct H as (i & -> & Hm & Hleft). cbn [Nat.add]. split.
    + intros k sep. split.
      * by intros [= <- <-].
      * intros [Hk Hbefore].
        destruct (Nat.lt_trichotomy i k) as [Hlt|[->|Hlt]].
        -- by apply Hbefore in Hm.
        -- by rewrite (isa_marker_unique content k sep0 sep Hm Hk).
        -- by apply Hleft in Hk.
    + split; [done|]. intros Hno. by apply Hno in Hm.
  - split; [|done]. intros k sep. split; [done|]. intros [Hk _].
    by apply H in Hk.
Qed.

Lemma isa_search_witness :
  isa_marker isa_document 0 "*"
  /\ forall j e, j < 0 -> ~ isa_marker isa_document j e.
Proof.
  apply (proj1 (isa_search_finds_leftmost_marker isa_document) 0 "*"%char).
  reflexivity.
Defined.

(** ** The terminator of a file without interchange header *)


(** ** Tokenization *)

Lemma push_elem_of c l p :
  p ∈ push c l ->
  (l = [] /\ p = [c])
  \/ exists h rest, l = h :: rest /\ (p = c :: h \/ p ∈ rest).
Proof.
  destruct l as [|h rest]; cbn.
  - intros H. apply list_elem_of_singleton in H. by left.
  - intros H. right. exists h, rest. split; [done|].
    by apply elem_of_cons in H.
Qed.

Lemma split_pieces sep s p :
  p ∈ split sep s -> sep ∉ p /\ forall c, c ∈ p -> c ∈ s.
Proof.
  revert p. induction s as [|x t IH]; intros p; cbn.
  - intros H. apply list_elem_of_singleton in H as ->.
    split; [apply not_elem_of_nil|done].
  - destruct (chr_eqb x sep) eqn:Hx.
    + intros H. apply elem_of_cons in H as [->|H].
      * split; [apply not_elem_of_nil|]. intros c Hc. by apply elem_of_nil in Hc.
      * destruct (IH p H) as [Hsep Hsub]. split; [done|].
        intros c Hc. apply elem_of_cons. right. by apply Hsub.
    + apply chr_eqb_neq in Hx. intros H.
      apply push_elem_of in H as [[Hnil _]|(h & rest & Heq & H)].
      * by apply split_not_nil in Hnil.
      * assert (h ∈ split sep t) as Hh by (rewrite Heq; apply list_elem_of_here).
        destruct H as [->|H].
        -- destruct (IH h Hh) as [Hsep Hsub]. split.
           ++ apply not_elem_of_cons. split; [congruence|done].
           ++ intros c Hc. apply elem_of_cons in Hc as [->|Hc];
                [apply list_elem_of_here|].
              apply elem_of_cons. right. by apply Hsub.
        -- assert (p ∈ split sep t) as Hp
             by (rewrite Heq; by apply list_elem_of_further).
           destruct (IH p Hp) as [Hsep Hsub]. split; [done|].
           intros c Hc. apply elem_of_cons. right. by apply Hsub.
Qed.

Lemma upper_chr_checked c :
  match upper_chr c with
  | Some u => negb (is_empty u) && forallb (fun x => negb (in_range 97 122 x)) u
  | None => true
  end = true.
Proof. destruct c as [[] [] [] [] [] [] [] []]; vm_compute; reflexivity. Qed.

Lemma upper_chr_not_lower c u :
  upper_chr c = Some u -> u <> [] /\ Forall (fun x => in_range 97 122 x = false) u.
Proof.
  intros H. pose proof (upper_chr_checked c) as Hc. rewrite H in Hc.
  apply andb_true_iff in Hc as [Hne Hlow]. split.
  - by destruct u.
  - apply Forall_forall. intros x Hx. rewrite forallb_forall in Hlow.
    apply negb_true_iff, Hlow. by apply list_elem_of_In.
Qed.

Lemma upper_not_lower s u :
  upper s = Some u ->
  (s <> [] -> u <> []) /\ Forall (fun x => in_range 97 122 x = false) u.
Proof.
  revert u. induction s as [|c t IH]; intros u; cbn.
  - intros [= <-]. split; [done|constructor].
  - destruct (upper_chr c) as [uc|] eqn:Hc; [|done].
    destruct (upper t) as [ut|]; [|done]. intros [= <-].
    destruct (upper_chr_not_lower c uc Hc) as [Hne Hlow].
    destruct (IH ut eq_refl) as [_ Hlow']. split.
    + intros _. by destruct uc.
    + by apply Forall_app.
Qed.

(** X16.  Every segment the tokenizer returns has an identifier that is
    not empty, is the upper case of its stripped first element and has no
    lower-case ASCII letter, so a file written in lower case is read like
    one in upper case; and none of its elements holds the element
    separator or the segment terminator. *)
Theorem tokenized_segments_are_well_formed text sep term segments :
  tokenize text sep term = Some segments ->
  Forall (fun seg =>
            fst seg <> []
            /\ upper (strip (el (snd seg) 0)) = Some (fst seg)
            /\ Forall (fun x => in_range 97 122 x = false) (fst seg)
            /\ Forall (fun e => sep ∉ e /\ term ∉ e) (snd seg))
         segments.
Proof.
  unfold tokenize.
  assert (Forall (fun chunk => term ∉ chunk) (split term text)) as Hchunks.
  { apply Forall_forall. intros p Hp. by apply split_pieces in Hp as [? _]. }
  revert segments Hchunks.
  induction (split term text) as [|raw rest IH]; intros segments Hchunks; cbn.
  - intros [= <-]. constructor.
  - apply Forall_cons in Hchunks as [Hraw Hrest].
    destruct (is_empty (strip raw)); [by apply IH|].
    destruct (upper (strip (el (split sep (strip raw)) 0))) as [seg_id|] eqn:Hup;
      [|done].
    destruct (is_empty seg_id) eqn:Hid; [by apply IH|].
    destruct (tokenize_chunks sep rest) as [segs|] eqn:Hrest'; [|done].
    intros [= <-]. constructor; [|by apply IH]. cbn [fst snd].
    split; [by destruct seg_id|]. split; [done|].
    split; [by apply upper_not_lower in Hup as [_ ?]|].
    apply Forall_forall. intros e He.
    apply split_pieces in He as [Hsep Hsub]. split; [done|].
    intros Hterm. apply Hsub, strip_elem_of in Hterm. done.
Qed.

Lemma tokenized_segments_witness :
  Forall (fun seg =>
            fst seg <> []
            /\ upper (strip (el (snd seg) 0)) = Some (fst seg)
            /\ Forall (fun x => in_range 97 122 x = false) (fst seg)
            /\ Forall (fun e => "*"%char ∉ e /\ "~"%char ∉ e) (snd seg))
         [(txt "CLM", map txt ["clm "; "A1"; "100"]%string);
          (txt "LX", map txt ["LX"; "1"]%string)].
Proof.
  apply (tokenized_segments_are_well_formed (txt " clm *A1*100~~LX*1~ ")
           "*"%char "~"%char).
  vm_compute. reflexivity.
Defined.

Lemma join_cons_cons sep p q rest :
  join sep (p :: q :: rest) = p ++ sep :: join sep (q :: rest).
Proof. done. Qed.

Lemma join_not_elem_of c sep pieces :
  c <> sep -> Forall (fun p => c ∉ p) pieces -> c ∉ join sep pieces.
Proof.
  intros Hc. induction 1 as [|p rest Hp Hrest IH]; [apply not_elem_of_nil|].
  destruct rest as [|q rest]; [done|].
  rewrite join_cons_cons, elem_of_app, elem_of_cons. intros [?|[?|?]]; done.
Qed.

Lemma split_join sep pieces :
  pieces <> [] -> Forall (fun p => sep ∉ p) pieces ->
  split sep (join sep pieces) = pieces.
Proof.
  intros Hne H. induction H as [|p rest Hp Hrest IH]; [done|].
  destruct rest as [|q rest]; [by apply split_no_sep|].
  rewrite join_cons_cons, split_app_sep by done. by rewrite IH.
Qed.

Lemma head_join sep pieces c :
  head (el pieces 0) = Some c -> head (join sep pieces) = Some c.
Proof. destruct pieces as [|[|x p] [|q rest]]; by cbn. Qed.

Lemma strip_id s :
  (forall c, head s = Some c -> isspace c = false) ->
  (forall c, last s = Some c -> isspace c = false) ->
  strip s = s.
Proof. intros Hh Hl. unfold strip. rewrite lstrip_id by done. by apply rstrip_id. Qed.

Lemma strip_not_empty s c :
  head s = Some c -> isspace c = false -> strip s <> [].
Proof.
  intros Hh Hc Hnil. unfold strip in Hnil.
  rewrite lstrip_id in Hnil by (intros c' Hc'; congruence).
  destruct (rstrip_prefix s) as (ws & Heq & Hws). rewrite Hnil in Heq.
  cbn in Heq. subst ws. destruct s as [|x s]; [done|].
  apply Forall_cons in Hws as [Hx _]. cbn in Hh. congruence.
Qed.

Lemma split_segments_text sep term lines :
  sep <> term ->
  Forall (written_segment sep term) lines ->
  split term (segments_text sep term lines) = map (join sep) lines ++ [[]].
Proof.
  intros Hne. induction 1 as [|elements lines (_ & Hels & _) _ IH]; [done|].
  unfold segments_text in *. cbn [map concat]. rewrite <- app_assoc. cbn [app].
  rewrite split_app_sep; [by rewrite IH|].
  apply join_not_elem_of; [done|].
  eapply Forall_impl; [exact Hels|]. by intros e [_ ?].
Qed.

(** X17.  Writing segments one after the other, each closed by the
    terminator, and tokenizing the text gives the segments back, in order
    and with their elements unchanged, each with the upper case of its
    stripped first element as identifier.  The segments must be written
    without a delimiter inside an element and without whitespace at the
    start or end of the line, and the two delimiters must differ. *)
Theorem tokenize_written_segments sep term lines ids :
  sep <> term ->
  Forall (written_segment sep term) lines ->
  Forall2 (fun elements id => upper (strip (el elements 0)) = Some id) lines ids ->
  tokenize (segments_text sep term lines) sep term = Some (zip ids lines).
Proof.
  intros Hne Hlines Hids. unfold tokenize.
  rewrite split_segments_text by done.
  induction Hids as [|elements id lines ids Hid _ IH]; [done|].
  apply Forall_cons in Hlines as [(Hne' & Hels & (c & Hhead & Hc) & Hlast) Hlines].
  cbn [map app tokenize_chunks zip zip_with].
  assert (strip (join sep elements) = join sep elements) as ->.
  { apply strip_id; [|done]. intros c' Hc'.
    rewrite (head_join sep elements c Hhead) in Hc'. congruence. }
  assert (is_empty (join sep elements) = false) as ->.
  { pose proof (head_join sep elements c Hhead). by destruct (join sep elements). }
  rewrite split_join; [|done|].
  2: { eapply Forall_impl; [exact Hels|]. by intros e [? _]. }
  rewrite Hid.
  assert (is_empty id = false) as ->.
  { apply upper_not_lower in Hid as [Hid _].
    pose proof (strip_not_empty _ c Hhead Hc) as Hs. specialize (Hid Hs).
    by destruct id. }
  by rewrite (IH Hlines).
Qed.

Lemma tokenize_written_witness :
  tokenize
    (segments_text "*" "~"
       [map txt ["clm "; "A1"; "100"]%string; map txt ["LX"; "1"]%string])
    "*" "~"
  = Some (zip [txt "CLM"; txt "LX"]
            [map txt ["clm "; "A1"; "100"]%string; map txt ["LX"; "1"]%string]).
Proof.
  apply (tokenize_written_segments "*"%char "~"%char).
  - apply (bool_decide_unpack _). vm_compute. exact I.
  - repeat constructor; cbn; try (apply (bool_decide_unpack _); vm_compute; exact I).
    all: try (eexists; split; reflexivity).
    all: intros c [= <-]; reflexivity.
  - repeat constructor.
Defined.

(** ** The reader on a file with an interchange header *)

Lemma tokenize_first_segment sep term elements id rest :
  sep <> term ->
  written_segment sep term elements ->
  upper (strip (el elements 0)) = Some id ->
  tokenize (join sep elements ++ term :: rest) sep term
  = cons (id, elements) <$> tokenize rest sep term.
Proof.
  intros Hne (Hne' & Hels & (c & Hhead & Hc) & Hlast) Hid. unfold tokenize.
  rewrite split_app_sep.
  2: { apply join_not_elem_of; [done|].
       eapply Forall_impl; [exact Hels|]. by intros e [_ ?]. }
  cbn [tokenize_chunks].
  assert (strip (join sep elements) = join sep elements) as ->.
  { apply strip_id; [|done]. intros c' Hc'.
    rewrite (head_join sep elements c Hhead) in Hc'. congruence. }
  assert (is_empty (join sep elements) = false) as ->.
  { pose proof (head_join sep elements c Hhead). by destruct (join sep elements). }
  rewrite split_join; [|done|].
  2: { eapply Forall_impl; [exact Hels|]. by intros e [? _]. }
  rewrite Hid.
  assert (is_empty id = false) as ->; [|done].
  apply upper_not_lower in Hid as [Hid _].
  pose proof (strip_not_empty _ c Hhead Hc) as Hs. specialize (Hid Hs).
  by destruct id.
Qed.

Lemma fields_text_join sep p fields final tail :
  p ++ sep :: fields_text sep fields (final ++ tail)
  = join sep (p :: fields ++ [final]) ++ tail.
Proof.
  revert p. induction fields as [|f fields IH]; intros p.
  - cbn. by rewrite <- app_assoc.
  - cbn [fields_text fold_right app]. fold (fields_text sep fields (final ++ tail)).
    rewrite IH. change ((f :: fields) ++ [final]) with (f :: fields ++ [final]).
    rewrite join_cons_cons. by rewrite <- app_assoc.
Qed.

Lemma matches_ci_cases u l c : matches_ci u l c = true -> c = u \/ c = l.
Proof.
  unfold matches_ci. intros H. apply orb_true_iff in H as [H|H];
    apply chr_eqb_eq in H; auto.
Qed.

Lemma isa_tag_facts tag :
  isa_tag tag = true ->
  upper (strip tag) = Some (txt "ISA")
  /\ exists c, head tag = Some c /\ isspace c = false.
Proof.
  destruct tag as [|a [|b [|c [|d t]]]]; try done. cbn [isa_tag]. intros H.
  apply andb_true_iff in H as [H Hc]. apply andb_true_iff in H as [Ha Hb].
  apply matches_ci_cases in Ha as [-> | ->];
    apply matches_ci_cases in Hb as [-> | ->];
    apply matches_ci_cases in Hc as [-> | ->];
    (split; [reflexivity|eexists; split; reflexivity]).
Qed.

Lemma detect_isa_text pre sep tag fields isa16 term rest :
  isa_search (pre ++ isa_text sep tag fields isa16 term rest)
  = Some (length pre, sep) ->
  length fields = 15 ->
  sep ∉ tag -> Forall (fun f => sep ∉ f) fields ->
  isa16 <> sep -> term <> sep ->
  detect_delimiters (pre ++ isa_text sep tag fields isa16 term rest)
  = inr (mkDelimiters sep term (length pre)).
Proof.
  intros Hsearch Hlen Htag Hfields H16 Hterm.
  unfold detect_delimiters. rewrite Hsearch, drop_app_length.
  destruct (split_max_isa sep tag fields isa16 term rest)
    as (piece & pieces & ->); try done.
  assert (length (tag :: fields ++ (isa16 :: term :: piece) :: pieces) <? 17
          = false) as ->.
  { apply Nat.ltb_ge. cbn. rewrite length_app, Hlen. cbn. lia. }
  assert (nth 16 (tag :: fields ++ (isa16 :: term :: piece) :: pieces) []
          = isa16 :: term :: piece) as ->.
  { cbn [nth]. rewrite app_nth2 by lia. by rewrite Hlen. }
  done.
Qed.

(** X18.  For a file whose interchange header has its sixteen elements
    free of both delimiters, the reader returns the header as the first
    segment: its identifier is ["ISA"] in upper case whatever the case of
    the tag, and its elements are the tag and the sixteen data elements,
    so the parser finds ISA06 and ISA08 at indexes 6 and 8.  The segments
    that follow are those of the text after the terminator. *)
Theorem isa_header_is_first_segment pre sep tag fields isa16 term rest :
  isa_search (pre ++ isa_text sep tag fields isa16 term rest)
  = Some (length pre, sep) ->
  length fields = 15 ->
  isa_tag tag = true ->
  Forall (fun f => sep ∉ f /\ term ∉ f) (tag :: fields) ->
  isa16 <> sep -> isa16 <> term -> term <> sep -> isspace isa16 = false ->
  read_x12_segments (pre ++ isa_text sep tag fields isa16 term rest)
  = (fun segments =>
       inr ((txt "ISA", tag :: fields ++ [[isa16]]) :: segments, sep, term))
      <$> tokenize rest sep term.
Proof.
  intros Hsearch Hlen Htag Hfree H16 H16' Hterm Hspace.
  pose proof Hfree as Hfree'.
  apply Forall_cons in Hfree as [[Htag_sep Htag_term] Hfields].
  destruct (isa_tag_facts tag Htag) as (Hupper & c & Hhead & Hc).
  unfold read_x12_segments.
  rewrite detect_isa_text; try done.
  2: { eapply Forall_impl; [exact Hfields|]. by intros f [? _]. }
  cbn [ele_sep seg_term parse_start]. rewrite drop_app_length.
  unfold isa_text.
  change (isa16 :: term :: rest) with ([isa16] ++ term :: rest).
  rewrite fields_text_join.
  assert (written_segment sep term (tag :: fields ++ [[isa16]])) as Hwritten.
  { split; [done|]. split.
    - apply Forall_cons. split; [done|]. apply Forall_app. split; [done|].
      apply Forall_singleton. split; apply not_elem_of_cons;
        (split; [congruence|apply not_elem_of_nil]).
    - split; [by exists c|]. intros x Hx.
      change (tag :: fields ++ [[isa16]]) with ((tag :: fields) ++ [[isa16]]) in Hx.
      assert (exists body, join sep ((tag :: fields) ++ [[isa16]]) = body ++ [isa16])
        as [body Hbody].
      { clear. generalize (tag :: fields). intros l.
        induction l as [|p l [body IH]]; [by exists []|].
        destruct l as [|q l].
        - exists (p ++ [sep]). cbn. by rewrite <- app_assoc.
        - exists (p ++ sep :: body).
          change ((p :: q :: l) ++ [[isa16]]) with (p :: (q :: l) ++ [[isa16]]).
          change ((q :: l) ++ [[isa16]]) with (q :: l ++ [[isa16]]) in *.
          rewrite join_cons_cons, IH. by rewrite <- app_assoc. }
      rewrite Hbody, last_snoc in Hx. congruence. }
  pose proof (tokenize_first_segment sep term (tag :: fields ++ [[isa16]])
                (txt "ISA") rest (not_eq_sym Hterm) Hwritten Hupper) as E.
  etransitivity;
    [exact (f_equal (fmap (fun segments => inr (segments, sep, term))) E)|].
  by destruct (tokenize rest sep term).
Qed.

Lemma isa_header_witness :
  read_x12_segments isa_document
  = (fun segments =>
       inr ((txt "ISA", txt "ISA" :: isa_fields ++ [[":"%char]]) :: segments,
            "*"%char, "~"%char))
      <$> tokenize (txt "GS*HC*SENDER*RECEIVER~") "*" "~".
Proof.
  apply (isa_header_is_first_segment [] "*"%char (txt "ISA") isa_fields
           ":"%char "~"%char (txt "GS*HC*SENDER*RECEIVER~")).
  - reflexivity.
  - reflexivity.
  - reflexivity.
  - apply (bool_decide_unpack _). vm_compute. exact I.
  - apply (bool_decide_unpack _). vm_compute. exact I.
  - apply (bool_decide_unpack _). vm_compute. exact I.
  - apply (bool_decide_unpack _). vm_compute. exact I.
  - reflexivity.
Defined.

(** ** The sections of a result *)



